(** * qiita-eval-bot: a shallow embedding of [src/main.py]

    The service fetches a Qiita article, asks a chat model to grade it,
    extracts a score from the free-text answer with a regular expression,
    appends one row to the [evaluations] table and serves per-user history.

    Modelling choices, all taken from the Python source:
    - a Python [str] is a list of Unicode code points ([list N]), so slicing
      ([review[:100]]) and [len] count code points as Python does;
    - a parsed JSON body is a value of [json]; [dict.get], iteration,
      subscripting and [len] raise the exceptions Python raises on values of
      the wrong shape;
    - the table is the list of its rows in insertion (rowid) order; a
      connection carries the rows it has inserted but not yet committed;
    - the outside world (HTTP answer, chat-model answer, database faults,
      clock) is a record of oracles, one per request;
    - [try/except Exception] is an exception monad over the connection state:
      an exception keeps whatever the connection had done so far.
    [print] calls write to stdout only and are left out. *)

From Stdlib Require Import ZArith NArith Lia String Ascii.
From Stdlib Require Import Floats.SpecFloat.
From Stdlib Require DecimalString.
From stdpp Require Import base numbers option list sorting.

Set Default Proof Using "Type".

(** ** Python strings *)

Abbreviation pystr := (list N) (only parsing).

Module Str.

(** Bytes of a literal as written in the UTF-8 source file. *)
Fixpoint bytes_of_string (s : string) : list N :=
  match s with
  | EmptyString => []
  | String a t => N_of_ascii a :: bytes_of_string t
  end.

(** UTF-8 decoding of a literal into code points: [pending] continuation
    bytes are still expected for the code point accumulated in [acc]. *)
Fixpoint utf8_decode (pending : nat) (acc : N) (bs : list N) : pystr :=
  match bs with
  | [] => []
  | b :: t =>
    if (b <? 128)%N then b :: utf8_decode 0 0%N t
    else if (b <? 192)%N then
      let acc' := (acc * 64 + (b - 128))%N in
      match pending with
      | 0 => utf8_decode 0 0%N t
      | 1 => acc' :: utf8_decode 0 0%N t
      | S k => utf8_decode k acc' t
      end
    else if (b <? 224)%N then utf8_decode 1 (b - 192)%N t
    else if (b <? 240)%N then utf8_decode 2 (b - 224)%N t
    else utf8_decode 3 (b - 240)%N t
  end.

(** A string literal of the source. *)
Definition u8 (s : string) : pystr := utf8_decode 0 0%N (bytes_of_string s).

Definition LF : N := 10.      (* "\n" *)
Definition SPACE : N := 32.   (* " " *)

(** [str(n)] for an integer. *)
Definition str_of_Z (z : Z) : pystr :=
  bytes_of_string (DecimalString.NilZero.string_of_int (Z.to_int z)).

(** [s.startswith(p)]. *)
Fixpoint startswith (p s : pystr) : bool :=
  match p, s with
  | [], _ => true
  | a :: p', b :: s' => (a =? b)%N && startswith p' s'
  | _ :: _, [] => false
  end.

(** [s.replace(old, new)] for a non-empty [old]: one scan from the left;
    at each position where [old] starts, [new] is emitted and the scan
    resumes after the occurrence ([skip] characters of it are still to be
    passed over), so occurrences never overlap and the output is not
    scanned again. *)
Fixpoint replace_go (old new : pystr) (skip : nat) (s : pystr) : pystr :=
  match s with
  | [] => []
  | c :: t =>
    match skip with
    | S k => replace_go old new k t
    | 0 =>
      if startswith old s then new ++ replace_go old new (length old - 1) t
      else c :: replace_go old new 0 t
    end
  end.

Definition replace (old new s : pystr) : pystr := replace_go old new 0 s.

(** [str.isspace] on one code point: the table of CPython's
    [_PyUnicode_IsWhitespace]. *)
Definition isspace (c : N) : bool :=
  ((9 <=? c) && (c <=? 13) || (28 <=? c) && (c <=? 32) || (c =? 133) ||
   (c =? 160) || (c =? 5760) || (8192 <=? c) && (c <=? 8202) ||
   (c =? 8232) || (c =? 8233) || (c =? 8239) || (c =? 8287) ||
   (c =? 12288))%N.

Fixpoint lstrip (s : pystr) : pystr :=
  match s with
  | c :: t => if isspace c then lstrip t else s
  | [] => []
  end.

Definition rstrip (s : pystr) : pystr := reverse (lstrip (reverse s)).

(** [s.strip()]. *)
Definition strip (s : pystr) : pystr := rstrip (lstrip s).

(** [p in s]: [p] occurs in [s] as a substring. *)
Fixpoint contains (p s : pystr) : bool :=
  startswith p s ||
  match s with
  | [] => false
  | _ :: t => contains p t
  end.

(** [sep.join(parts)]. *)
Fixpoint join (sep : pystr) (parts : list pystr) : pystr :=
  match parts with
  | [] => []
  | [p] => p
  | p :: rest => p ++ sep ++ join sep rest
  end.

End Str.

Import Str.

(** ** Regular expressions

    The fragment of Python's [re] that the source uses, with the
    backtracking semantics of the engine: alternatives are tried in order
    and the first overall success wins; a bounded repetition is greedy. *)

Module Re.

Inductive regex :=
| Lit (c : N)                         (* a literal character *)
| Digit                               (* \d *)
| Seq (r1 r2 : regex)                 (* r1 r2 *)
| Repeat (lo hi : nat) (r : regex)    (* r{lo,hi}, greedy *)
| Group (r : regex).                  (* ( r ), capturing *)

Section Matcher.
(** [\d] on a [str] pattern matches every code point with a decimal
    value (general category Nd); the table belongs to the Unicode
    database of the running interpreter. *)
Variable unicode_decimal : N → option N.

Definition isdecimal (c : N) : bool := bool_decide (is_Some (unicode_decimal c)).

(** Greedy repetition of a one-step matcher [step]: at least [lo] and at
    most [hi] more iterations, then the continuation [k]. One more
    iteration is tried first; the continuation is tried at the current
    position only when that fails. *)
Fixpoint repeat_greedy {A} (step : pystr → (pystr → option A) → option A)
    (lo hi : nat) (s : pystr) (k : pystr → option A) : option A :=
  match hi with
  | 0 => match lo with 0 => k s | S _ => None end
  | S hi' =>
    match step s (fun s' => repeat_greedy step (pred lo) hi' s' k) with
    | Some x => Some x
    | None => match lo with 0 => k s | S _ => None end
    end
  end.

(** [match_here r s groups k]: match [r] at the head of [s], then run
    [k] on the captured groups (the group closed last comes first) and
    the rest of the input. Groups inside a repetition are not recorded;
    the source's pattern has none. *)
Fixpoint match_here {A} (r : regex) (s : pystr) (groups : list pystr)
    (k : list pystr → pystr → option A) : option A :=
  match r with
  | Lit c =>
    match s with
    | c' :: t => if (c =? c')%N then k groups t else None
    | [] => None
    end
  | Digit =>
    match s with
    | c' :: t => if isdecimal c' then k groups t else None
    | [] => None
    end
  | Seq r1 r2 =>
    match_here r1 s groups (fun g s' => match_here r2 s' g k)
  | Repeat lo hi r1 =>
    repeat_greedy
      (fun s0 k0 => match_here r1 s0 groups (fun _ s' => k0 s'))
      lo hi s (k groups)
  | Group r1 =>
    match_here r1 s groups
      (fun g s' => k (take (length s - length s') s :: g) s')
  end.

(** [re.match]: an anchored attempt; the result is the list of groups. *)
Definition match_at (r : regex) (s : pystr) : option (list pystr) :=
  match_here r s [] (fun g _ => Some g).

(** [re.search]: the attempt is made at every start position from the
    left, the end of the string included. *)
Fixpoint search (r : regex) (s : pystr) : option (list pystr) :=
  match match_at r s with
  | Some g => Some g
  | None =>
    match s with
    | [] => None
    | _ :: t => search r t
    end
  end.

(** [int(text)] for a text of decimal digits: every character counts
    with its decimal value. Text with any other character is answered
    with [None] (Python raises [ValueError] on it, or accepts a sign,
    blanks or underscores, none of which [\d] can capture). *)
Definition int_of_digits (text : pystr) : option Z :=
  match text with
  | [] => None
  | _ =>
    foldl (fun acc c =>
             n ← acc; d ← unicode_decimal c; Some (10 * n + Z.of_N d)%Z)
          (Some 0%Z) text
  end.
End Matcher.

End Re.

(** The character 点 (U+70B9) that follows a score. *)
Definition SCORE_UNIT : N := 28857.

(** The pattern [r"(\d{1,3})点"] of [evaluate]. *)
Definition SCORE_RE : Re.regex :=
  Re.Seq (Re.Group (Re.Repeat 1 3 Re.Digit)) (Re.Lit SCORE_UNIT).

(** [match.group(1)] for a pattern with one group. *)
Definition group1 (m : list pystr) : pystr := default [] (last m).

(** ** Exceptions *)

Inductive exn :=
| AttributeError | TypeError | KeyError | ValueError | OverflowError
| UnicodeEncodeError    (* a str with a surrogate has no UTF-8 encoding *)
| RequestException      (* requests.get failed *)
| JSONDecodeError       (* response.json() failed *)
| OpenAIError           (* the chat-completion call failed *)
| SqliteError.          (* sqlite3.Error and its subclasses *)

Inductive result (A : Type) :=
| Ok (a : A)
| Raise (e : exn).
Arguments Ok {A} a.
Arguments Raise {A} e.

#[export] Instance result_ret : MRet result := fun _ a => Ok a.
#[export] Instance result_bind : MBind result := fun _ _ f m =>
  match m with
  | Ok a => f a
  | Raise e => Raise e
  end.

(** ** JSON values as Python objects *)

#[warnings="-register-all"] Inductive json :=
| JNull                               (* None *)
| JBool (b : bool)
| JInt (z : Z)
| JFloat (f : spec_float)
| JStr (s : pystr)
| JArr (items : list json)
| JObj (fields : list (pystr * json)).

Module Py.

(** [bool(v)]: the truth value tested by [if not article]. *)
Definition truthy (v : json) : bool :=
  match v with
  | JNull => false
  | JBool b => b
  | JInt z => negb (z =? 0)%Z
  | JFloat (S754_zero _) => false
  | JFloat _ => true
  | JStr s => negb (bool_decide (s = []))
  | JArr items => match items with [] => false | _ => true end
  | JObj fields => match fields with [] => false | _ => true end
  end.

(** Key lookup in a parsed object (its keys are distinct). *)
Fixpoint lookup_field (key : pystr) (fields : list (pystr * json)) : option json :=
  match fields with
  | [] => None
  | (k, v) :: rest => if bool_decide (k = key) then Some v else lookup_field key rest
  end.

(** [v.get(key, dflt)]: only a dict has the method. *)
Definition get (v : json) (key : pystr) (dflt : json) : result json :=
  match v with
  | JObj fields => Ok (default dflt (lookup_field key fields))
  | _ => Raise AttributeError
  end.

(** [v[key]] for a string key. *)
Definition getitem (v : json) (key : pystr) : result json :=
  match v with
  | JObj fields =>
    match lookup_field key fields with
    | Some x => Ok x
    | None => Raise KeyError
    end
  | _ => Raise TypeError
  end.

(** The elements that [for x in v] visits. *)
Definition iter (v : json) : result (list json) :=
  match v with
  | JArr items => Ok items
  | JObj fields => Ok (map (fun kv => JStr (fst kv)) fields)
  | JStr s => Ok (map (fun c => JStr [c]) s)
  | _ => Raise TypeError
  end.

(** [len(v)]. *)
Definition len (v : json) : result nat :=
  match v with
  | JStr s => Ok (length s)
  | JArr items => Ok (length items)
  | JObj fields => Ok (length fields)
  | _ => Raise TypeError
  end.

(** [sep.join(items)]: every item has to be a [str]. *)
Fixpoint strings (items : list json) : result (list pystr) :=
  match items with
  | [] => Ok []
  | JStr s :: rest => rest' ← strings rest; Ok (s :: rest')
  | _ :: _ => Raise TypeError
  end.

Definition join (sep : pystr) (items : list json) : result pystr :=
  parts ← strings items; Ok (Str.join sep parts).

(** [[f(x) for x in items]] with a body that may raise. *)
Fixpoint comprehension {A B} (f : A → result B) (items : list A) : result (list B) :=
  match items with
  | [] => Ok []
  | x :: rest => y ← f x; ys ← comprehension f rest; Ok (y :: ys)
  end.

(** [enumerate(l, start)]. *)
Fixpoint enumerate {A} (start : nat) (l : list A) : list (nat * A) :=
  match l with
  | [] => []
  | x :: rest => (start, x) :: enumerate (S start) rest
  end.

Section Format.
(** [repr] of a float, a list or a dict is the interpreter's business. *)
Variable py_repr : json → pystr.

(** [str(v)], which is what an f-string field [{v}] inserts. *)
Definition str (v : json) : pystr :=
  match v with
  | JNull => u8 "None"
  | JBool true => u8 "True"
  | JBool false => u8 "False"
  | JInt z => str_of_Z z
  | JStr s => s
  | JFloat _ | JArr _ | JObj _ => py_repr v
  end.
End Format.

(** [str] of a value read from an INTEGER column: an [int] or [None]. *)
Definition str_of_score (score : option Z) : pystr :=
  match score with
  | Some z => str_of_Z z
  | None => u8 "None"
  end.

End Py.

(** ** The outside world of one request *)

Inductive http_outcome :=
| HttpFailure                                     (* requests.get raised *)
| HttpResponse (status_code : Z) (body : option json).
    (* [body] is what response.json() parses, [None] when it cannot *)

Inductive llm_outcome :=
| LlmFailure                                      (* the call raised *)
| LlmMessage (content : option pystr).            (* choices[0].message.content *)

Inductive db_op := DbConnect | DbSelect | DbInsert | DbCommit.

Record World := {
  qiita_api : pystr → http_outcome;       (* GET /api/v2/items/{article_id} *)
  chat_completion : pystr → llm_outcome;  (* answer to a prompt *)
  db_fault : db_op → bool;                (* the operation raises sqlite3.Error *)
  current_timestamp : Z                   (* CURRENT_TIMESTAMP, in seconds *)
}.

(** ** The evaluations table *)

Inductive sqlval :=
| SqlNull
| SqlInt (z : Z)
| SqlReal (f : spec_float)
| SqlText (s : pystr).

(** One row of [evaluations]. [article_id] and [title] hold what their
    TEXT columns keep of the value that was bound. *)
Record Row := {
  row_id : Z;
  row_user : pystr;
  row_article_id : sqlval;
  row_title : sqlval;
  row_score : option Z;
  row_review : pystr;
  row_created_at : Z
}.

(** [init_db]: CREATE TABLE IF NOT EXISTS keeps an existing table and
    creates an empty one otherwise. *)
Definition init_db (existing : option (list Row)) : list Row := default [] existing.

(** An open connection: the rows on disk and the rows of its own
    transaction that is not committed yet. *)
Record Conn := {
  committed : list Row;
  pending : list Row
}.

Definition connect (db : list Row) : Conn := {| committed := db; pending := [] |}.

(** The rows a statement of the connection sees. *)
Definition visible (c : Conn) : list Row := committed c ++ pending c.

(** Statements run in the connection and may raise; an exception leaves
    the connection as it was at that point. *)
Definition M (A : Type) : Type := Conn → result A * Conn.

#[export] Instance M_ret : MRet M := fun _ a c => (Ok a, c).
#[export] Instance M_bind : MBind M := fun _ _ f m c =>
  match m c with
  | (Ok a, c') => f a c'
  | (Raise e, c') => (Raise e, c')
  end.

Definition lift {A} (r : result A) : M A := fun c => (r, c).

Definition INT64_MAX : Z := 9223372036854775807.
Definition INT64_MIN : Z := -9223372036854775808.

Module Sql.

(** A code point that is half of a UTF-16 pair. *)
Definition is_surrogate (c : N) : bool := (55296 <=? c)%N && (c <=? 57343)%N.

(** A str is bound as its UTF-8 encoding, which a str with a surrogate
    does not have. *)
Definition bind_text (s : pystr) : result pystr :=
  if existsb is_surrogate s then Raise UnicodeEncodeError else Ok s.

(** The value sqlite3 binds for a Python object: None, int (a bool is
    one), float and str are supported, an int has to fit 64 bits, and
    the engine takes a NaN as NULL. *)
Definition bind (v : json) : result sqlval :=
  match v with
  | JNull => Ok SqlNull
  | JBool b => Ok (SqlInt (if b then 1 else 0))
  | JInt z =>
    if ((INT64_MIN <=? z) && (z <=? INT64_MAX))%Z then Ok (SqlInt z)
    else Raise OverflowError
  | JFloat S754_nan => Ok SqlNull
  | JFloat f => Ok (SqlReal f)
  | JStr s => s' ← bind_text s; Ok (SqlText s')
  | JArr _ | JObj _ => Raise SqliteError
  end.

(** What a column declared TEXT keeps of a bound value: an integer is
    stored as its decimal text. A REAL is stored as text as well; its
    digits are the engine's and are not spelled out here, the number
    stands for them. *)
Definition text_column (v : sqlval) : sqlval :=
  match v with
  | SqlInt z => SqlText (str_of_Z z)
  | SqlNull | SqlReal _ | SqlText _ => v
  end.

Definition bind_score (score : option Z) : result (option Z) :=
  match score with
  | None => Ok None
  | Some z => v ← bind (JInt z); Ok (Some z)
  end.

(** The orders of ORDER BY created_at and ORDER BY created_at DESC. *)
Definition created_le (r1 r2 : Row) : Prop := (row_created_at r1 ≤ row_created_at r2)%Z.
Definition created_ge (r1 r2 : Row) : Prop := (row_created_at r2 ≤ row_created_at r1)%Z.

Definition id_le (r1 r2 : Row) : Prop := (row_id r1 ≤ row_id r2)%Z.

#[global] Instance id_le_dec : RelDecision id_le.
Proof. intros r1 r2. unfold id_le. apply _. Defined.
#[global] Instance created_le_dec : RelDecision created_le.
Proof. intros r1 r2. unfold created_le. apply _. Defined.
#[global] Instance created_ge_dec : RelDecision created_ge.
Proof. intros r1 r2. unfold created_ge. apply _. Defined.

(** Sorting by insertion, stable: [r] goes in front of the first row it
    may precede, so rows with equal keys keep the order they came in.
    SQLite returns rows with equal sort keys in the order of its scan,
    for ORDER BY and for ORDER BY ... DESC. *)
Fixpoint insert_by (R : relation Row) `{!RelDecision R} (r : Row) (sorted : list Row)
    : list Row :=
  match sorted with
  | [] => [r]
  | x :: rest => if decide (R r x) then r :: sorted else x :: insert_by R r rest
  end.

Definition sort_by (R : relation Row) `{!RelDecision R} (rows : list Row) : list Row :=
  foldr (insert_by R) [] rows.

(** A scan of the table visits the rows by their key. *)
Definition scan (rows : list Row) : list Row := sort_by id_le rows.

Definition order_by_created_at (rows : list Row) : list Row :=
  sort_by created_le (scan rows).
Definition order_by_created_at_desc (rows : list Row) : list Row :=
  sort_by created_ge (scan rows).

(** WHERE user = ? *)
Definition where_user (user : pystr) (rows : list Row) : list Row :=
  filter (fun r => row_user r = user) rows.

(** The id an AUTOINCREMENT key gives the next row: one more than the
    largest id of the table (no row is ever deleted). *)
Definition max_id (rows : list Row) : Z := foldr (fun r m => Z.max (row_id r) m) 0%Z rows.

End Sql.

Section Operations.
Variable w : World.

(** sqlite3.connect("evaluation.db") *)
Definition db_connect : M () := fun c =>
  if db_fault w DbConnect then (Raise SqliteError, c) else (Ok (), c).

(** SELECT score, review FROM evaluations WHERE user = ? ORDER BY created_at *)
Definition select_score_review (user : pystr) : M (list (option Z * pystr)) := fun c =>
  if db_fault w DbSelect then (Raise SqliteError, c)
  else (Ok (map (fun r => (row_score r, row_review r))
                (Sql.order_by_created_at (Sql.where_user user (visible c)))), c).

(** SELECT article_id, title, score, created_at FROM evaluations
    WHERE user = ? ORDER BY created_at DESC *)
Definition select_history (user : pystr) : M (list Row) := fun c =>
  if db_fault w DbSelect then (Raise SqliteError, c)
  else (Ok (Sql.order_by_created_at_desc (Sql.where_user user (visible c))), c).

(** INSERT INTO evaluations (user, article_id, title, score, review)
    VALUES (?, ?, ?, ?, ?): the parameters are bound in order, the key
    and the creation time are filled in by the engine. The row belongs
    to the open transaction. [user] is a parameter of the request,
    which the framework decodes from the URL: it has no surrogate. *)
Definition insert_evaluation (user : pystr) (article_id title : json)
    (score : option Z) (review : pystr) : M () := fun c =>
  match (aid ← Sql.bind article_id; ttl ← Sql.bind title;
         sc ← Sql.bind_score score; rv ← Sql.bind_text review;
         Ok (aid, ttl, sc, rv)) with
  | Raise e => (Raise e, c)
  | Ok (aid, ttl, sc, rv) =>
    if db_fault w DbInsert then (Raise SqliteError, c)
    else if (INT64_MAX <=? Sql.max_id (visible c))%Z then (Raise SqliteError, c)
    else
      let row := {| row_id := Sql.max_id (visible c) + 1;
                    row_user := user;
                    row_article_id := Sql.text_column aid;
                    row_title := Sql.text_column ttl;
                    row_score := sc;
                    row_review := rv;
                    row_created_at := current_timestamp w |} in
      (Ok (), {| committed := committed c; pending := pending c ++ [row] |})
  end.

(** conn.commit() *)
Definition commit : M () := fun c =>
  if db_fault w DbCommit then (Raise SqliteError, c)
  else (Ok (), {| committed := committed c ++ pending c; pending := [] |}).

(** conn.close(): what is not committed is rolled back. *)
Definition close : M () := fun c =>
  (Ok (), {| committed := committed c; pending := [] |}).
End Operations.

(** ** The prompt *)

(** Each line followed by a newline. *)
Definition unlines (ls : list pystr) : pystr := concat (map (fun l => l ++ [LF]) ls).

Definition PROMPT_RUBRIC : list pystr :=
  [ u8 "以下のQiita記事について100点満点で評価し、理由を添えてください。さらに、以下の評価ポイントに従ってください。";
    [];
    u8 "【評価ポイント】";
    u8 "- 読みやすさ（初心者にもわかりやすいか）";
    u8 "- 論理性（見出し構造、流れ）";
    u8 "- 情報の網羅性";
    u8 "- 実用性（役立つ情報かどうか）";
    u8 "- 人気度（LGTM数、コメント数）";
    u8 "- 説明の深さ（背景や仕組みの理解を助ける内容があるか）";
    u8 "- 独自性（他の記事にはない工夫やアイデアがあるか）";
    [];
    u8 "また、以下の3つのルールが守られているか必ず確認し、**守られていない場合は必ず指摘してください**:";
    u8 "- **記事タイトルに「何のために」「何を解決したいか」の目的意識が示されているか**";
    u8 "- **記事のタグが3つ以上設定されているか**";
    u8 "- **マークダウン形式で正しく記載されているか**";
    [] ].

Definition PROMPT_ANSWER_FORMAT : list pystr :=
  [ u8 "評価結果は以下の形式で返してください。";
    u8 "・点数（100点満点）";
    u8 "・理由（箇条書きで3つ以上）";
    u8 "・改善点（箇条書きで3つ以上）";
    u8 "・振り返りコメント（過去の評価がある場合は「前回と比較して…」のように、過去データと比較したコメントを含めてください。過去の評価がない場合は「今回が初めての評価なので、振り返りコメントはありません」と記載してください。）" ].

Definition HISTORY_HEADER : pystr :=
  Eval vm_compute in u8 "【これまでの評価履歴（最新→過去）】" ++ [LF].
Definition HISTORY_INSTRUCTION : pystr :=
  Eval vm_compute in u8 "今回の評価ではこれまでの履歴と比較して成長点や改善点を含めてコメントしてください。".
Definition FIRST_EVALUATION : pystr :=
  Eval vm_compute in u8 "今回が初めての評価なので、振り返りコメントはありません。".

(** f"・{idx}回前の評価: スコア {score}点, 要約: {review[:100]}...\n" *)
Definition history_line (idx : nat) (score : option Z) (review : pystr) : pystr :=
  u8 "・" ++ str_of_Z (Z.of_nat idx) ++ u8 "回前の評価: スコア " ++
  Py.str_of_score score ++ u8 "点, 要約: " ++ take 100 review ++ u8 "..." ++ [LF].

(** The [history_prompt] variable of [evaluate_article_with_openai]:
    [if past_reviews:] holds for a non-empty list only (the default
    argument [None] is false as well); the loop appends one line per
    entry of [reversed(past_reviews)], numbered from 1. *)
Definition history_prompt (past_reviews : option (list (option Z * pystr))) : pystr :=
  match past_reviews with
  | Some ((_ :: _) as past) =>
    foldl (fun acc '(idx, (score, review)) => acc ++ history_line idx score review)
          HISTORY_HEADER (Py.enumerate 1 (reverse past))
    ++ HISTORY_INSTRUCTION
  | Some [] | None => FIRST_EVALUATION
  end.

(** The f-string [prompt]. *)
Definition prompt_text (title body body_length lgtm_count comments_count tags
    history : pystr) : pystr :=
  [LF] ++ unlines PROMPT_RUBRIC ++
  unlines [ u8 "【タイトル】"; title; [];
            u8 "【本文】"; body; [];
            u8 "【補足データ】";
            u8 "- 文字数: " ++ body_length ++ u8 "文字";
            u8 "- LGTM数: " ++ lgtm_count;
            u8 "- コメント数: " ++ comments_count;
            u8 "- タグ: " ++ tags;
            [];
            history;
            [] ] ++
  unlines PROMPT_ANSWER_FORMAT.

Definition ERR_ARTICLE : pystr := Eval vm_compute in u8 "Qiita記事が取得できませんでした。IDを確認してください。".
Definition ERR_UNEXPECTED : pystr := Eval vm_compute in u8 "予期しないエラーが発生しました。".
Definition ERR_HISTORY : pystr := Eval vm_compute in u8 "履歴取得時にエラーが発生しました。".

(** ** The handlers *)

(** The JSON object a handler returns. *)
Inductive EvaluatePayload :=
| Evaluated (user : pystr) (score : option Z) (review : pystr)
| EvaluateError (error : pystr).

Record HistoryItem := {
  item_article_id : sqlval;
  item_title : sqlval;
  item_score : option Z;
  item_created_at : Z
}.

Inductive HistoryPayload :=
| History (user : pystr) (history : list HistoryItem)
| HistoryError (error : pystr).

Section Handlers.
Variable unicode_decimal : N → option N.
Variable py_repr : json → pystr.

(** [get_qiita_article] *)
Definition get_qiita_article (w : World) (article_id : pystr) : result json :=
  match qiita_api w article_id with
  | HttpFailure => Raise RequestException
  | HttpResponse status_code body =>
    if negb (status_code =? 200)%Z then Ok JNull
    else match body with
         | Some v => Ok v
         | None => Raise JSONDecodeError
         end
  end.

(** The prompt [evaluate_article_with_openai] builds, up to the call of
    the chat model. *)
Definition build_prompt (article : json)
    (past_reviews : option (list (option Z * pystr))) : result pystr :=
  tag_list ← Py.get article (u8 "tags") (JArr []);
  tag_items ← Py.iter tag_list;
  names ← Py.comprehension (fun tag => Py.getitem tag (u8 "name")) tag_items;
  tags ← Py.join (u8 ", ") names;
  lgtm_count ← Py.get article (u8 "likes_count") (JInt 0);
  comments_count ← Py.get article (u8 "comments_count") (JInt 0);
  body0 ← Py.get article (u8 "body") (JStr []);
  body_length ← Py.len body0;
  title ← Py.get article (u8 "title") (JStr []);
  body ← Py.get article (u8 "body") (JStr []);
  Ok (prompt_text (Py.str py_repr title) (Py.str py_repr body)
        (str_of_Z (Z.of_nat body_length))
        (Py.str py_repr lgtm_count) (Py.str py_repr comments_count)
        tags (history_prompt past_reviews)).

(** result.replace("\n", " ").replace("  ", " ").strip() *)
Definition clean (result : pystr) : pystr :=
  strip (replace [SPACE; SPACE] [SPACE] (replace [LF] [SPACE] result)).

(** [evaluate_article_with_openai] *)
Definition evaluate_article_with_openai (w : World) (article : json)
    (past_reviews : option (list (option Z * pystr))) : result pystr :=
  prompt ← build_prompt article past_reviews;
  match chat_completion w prompt with
  | LlmFailure => Raise OpenAIError
  | LlmMessage None => Raise AttributeError
  | LlmMessage (Some result) => Ok (clean result)
  end.

(** The score extraction of [evaluate]:
    match = re.search(r"(\d{1,3})点", evaluation)
    score = int(match.group(1)) if match else None *)
Definition extract_score (evaluation : pystr) : result (option Z) :=
  match Re.search unicode_decimal SCORE_RE evaluation with
  | Some m =>
    match Re.int_of_digits unicode_decimal (group1 m) with
    | Some score => Ok (Some score)
    | None => Raise ValueError
    end
  | None => Ok None
  end.

(** The body of the [try] block of [evaluate]. *)
Definition evaluate_try (w : World) (article_id user : pystr) : M EvaluatePayload :=
  db_connect w;;
  past_reviews ← select_score_review w user;
  article ← lift (get_qiita_article w article_id);
  if negb (Py.truthy article) then mret (EvaluateError ERR_ARTICLE)
  else
    evaluation ← lift (evaluate_article_with_openai w article (Some past_reviews));
    score ← lift (extract_score evaluation);
    id ← lift (Py.get article (u8 "id") JNull);
    title ← lift (Py.get article (u8 "title") JNull);
    insert_evaluation w user id title score evaluation;;
    commit w;;
    close;;
    mret (Evaluated user score evaluation).

(** [evaluate]: GET /evaluate/{article_id}?user=... on the table [db].
    An exception becomes the generic error payload. Either way the
    connection is dropped when the handler returns, and the table is
    what was committed. *)
Definition evaluate (w : World) (db : list Row) (article_id user : pystr)
    : EvaluatePayload * list Row :=
  match evaluate_try w article_id user (connect db) with
  | (Ok payload, c) => (payload, committed c)
  | (Raise _, c) => (EvaluateError ERR_UNEXPECTED, committed c)
  end.

Definition history_item (r : Row) : HistoryItem :=
  {| item_article_id := row_article_id r;
     item_title := row_title r;
     item_score := row_score r;
     item_created_at := row_created_at r |}.

(** [get_user_history]: GET /history/{user}. *)
Definition get_user_history (w : World) (db : list Row) (user : pystr)
    : HistoryPayload * list Row :=
  match (db_connect w;; rows ← select_history w user; close;;
         mret (History user (map history_item rows))) (connect db) with
  | (Ok payload, c) => (payload, committed c)
  | (Raise _, c) => (HistoryError ERR_HISTORY, committed c)
  end.
End Handlers.

(** ** Statements of the specification *)

(** Modelled from the spec's words: at position [i] of [s] stands "a
    substring of 1-3 digits immediately followed by the score-unit
    suffix", the digits being [k] many. *)
Definition digits_then_unit (unicode_decimal : N → option N)
    (s : pystr) (i k : nat) : Prop :=
  1 ≤ k ≤ 3 ∧
  (∀ j, j < k → ∃ c, s !! (i + j) = Some c ∧ Re.isdecimal unicode_decimal c = true) ∧
  s !! (i + k) = Some SCORE_UNIT.

(** The first such match: no match starts further left. *)
Definition first_digits_then_unit (unicode_decimal : N → option N)
    (s : pystr) (i k : nat) : Prop :=
  digits_then_unit unicode_decimal s i k ∧
  ∀ i' k', digits_then_unit unicode_decimal s i' k' → i ≤ i'.

(** The integer a run of decimal digits denotes. *)
Definition decimal_number (unicode_decimal : N → option N) (digits : pystr) : Z :=
  foldl (fun n c => 10 * n + Z.of_N (default 0%N (unicode_decimal c)))%Z 0%Z digits.

(** Modelled from the spec's words: the score of a text is the integer
    parsed from the digits of the first such match, and null when the
    text has no such substring. *)
Definition score_of_first_match (unicode_decimal : N → option N)
    (py_text : pystr) (score : option Z) : Prop :=
  (∀ i k, first_digits_then_unit unicode_decimal py_text i k →
          score = Some (decimal_number unicode_decimal (take k (drop i py_text)))) ∧
  ((∃ i k, digits_then_unit unicode_decimal py_text i k) →
   ∃ i k, first_digits_then_unit unicode_decimal py_text i k) ∧
  ((∀ i k, ¬ digits_then_unit unicode_decimal py_text i k) → score = None).

(** Modelled from the spec's words: a line of the digest shows the index
    [k] in decimal, the score (the word None for an absent one) and the
    first 100 characters of the review, in the wording of the prompt. *)
Definition digest_line (k : nat) (score : option Z) (review : pystr) : pystr :=
  u8 "・" ++ str_of_Z (Z.of_nat k) ++ u8 "回前の評価: スコア " ++
  match score with Some z => str_of_Z z | None => u8 "None" end ++
  u8 "点, 要約: " ++ firstn 100 review ++ u8 "..." ++ [LF].

(** Modelled from the spec's words: the digest of a history given
    oldest first enumerates the entries most recent first; its line
    number [k], counted from 1, is the line of [k] and of the [k]-th most
    recent entry. *)
Definition digest (past : list (option Z * pystr)) : pystr :=
  concat (map (fun k =>
                 match past !! (length past - k) with
                 | Some (score, review) => digest_line k score review
                 | None => []
                 end)
              (seq 1 (length past))).

(** [p] occurs in [s]. *)
Definition occurs_in (p s : pystr) : Prop := ∃ before after, s = before ++ p ++ after.

(** An article of the shape the content API documents: an object with
    the fields id, title, body, likes_count, comments_count and tags, the
    tags being objects with a name. *)
Definition api_article (id title body : pystr) (likes_count comments_count : Z)
    (tags : list pystr) : json :=
  JObj [ (u8 "id", JStr id);
         (u8 "title", JStr title);
         (u8 "body", JStr body);
         (u8 "likes_count", JInt likes_count);
         (u8 "comments_count", JInt comments_count);
         (u8 "tags", JArr (map (fun name => JObj [(u8 "name", JStr name)]) tags)) ].

(** ** Sequences of requests *)

(** One request to [evaluate], with the world it meets. *)
Record Call := {
  call_world : World;
  call_article_id : pystr;
  call_user : pystr
}.

(** Requests served one after the other on the same table: the answers
    in order, and the table at the end. *)
Fixpoint serve (unicode_decimal : N → option N) (py_repr : json → pystr)
    (calls : list Call) (db : list Row) : list EvaluatePayload * list Row :=
  match calls with
  | [] => ([], db)
  | c :: rest =>
    let '(payload, db1) :=
      evaluate unicode_decimal py_repr (call_world c) db (call_article_id c) (call_user c) in
    let '(payloads, db2) := serve unicode_decimal py_repr rest db1 in
    (payload :: payloads, db2)
  end.

(** The answer of a successful evaluation for [user]. *)
Definition evaluated_for (user : pystr) (payload : EvaluatePayload) : Prop :=
  match payload with
  | Evaluated u _ _ => u = user
  | EvaluateError _ => False
  end.

#[export] Instance evaluated_for_dec user payload : Decision (evaluated_for user payload).
Proof. destruct payload; simpl; apply _. Defined.

(** Newest first: no later item of the list is newer. *)
Definition newest_first (history : list HistoryItem) : Prop :=
  StronglySorted (fun h1 h2 => (item_created_at h2 ≤ item_created_at h1)%Z) history.

(** ** Auxiliary definitions for the proofs *)

(** One iteration of [\d] inside a repetition. *)
Definition digit_step (unicode_decimal : N → option N) {A}
    (s : pystr) (k : pystr → option A) : option A :=
  match s with
  | c :: t => if Re.isdecimal unicode_decimal c then k t else None
  | [] => None
  end.

(** What is left of the pattern after the digits: the literal 点; the
    group is then the text consumed since [s]. *)
Definition unit_then (s s' : pystr) : option (list pystr) :=
  match s' with
  | c :: _ => if (SCORE_UNIT =? c)%N then Some [take (length s - length s') s] else None
  | [] => None
  end.

(** ** Further notions for the properties of the handlers *)

(** What a successful answer tells the caller: user, score and review. *)
Definition stored_answer (payload : EvaluatePayload) : option (pystr * option Z * pystr) :=
  match payload with
  | Evaluated user score review => Some (user, score, review)
  | EvaluateError _ => None
  end.

(** The same three columns of a row. *)
Definition row_answer (r : Row) : pystr * option Z * pystr :=
  (row_user r, row_score r, row_review r).

(** The keys of the table count up from 1 in insertion order. *)
Definition ids_from_one (db : list Row) : Prop :=
  map row_id db = map Z.of_nat (seq 1 (length db)).

(** A stored score is null or has at most three digits. *)
Definition score_in_range (score : option Z) : Prop :=
  match score with
  | Some z => (0 ≤ z ≤ 999)%Z
  | None => True
  end.

(** A text without newline and without whitespace at either end. *)
Definition one_line_trimmed (py_text : pystr) : Prop :=
  (LF ∉ py_text) ∧
  (∀ c, head py_text = Some c → isspace c = false) ∧
  (∀ c, last py_text = Some c → isspace c = false).

(** The characters of a text that are not whitespace, in order. *)
Definition visible_characters (py_text : pystr) : pystr :=
  filter (fun c => isspace c = false) py_text.

(** ** A concrete interpreter and sample requests *)

Module Sample.

(** The code points of the digit zero of every block of general category
    Nd in Unicode 14.0 (the database of CPython 3.11); the nine code
    points after each are its digits one to nine. *)
Definition ND_ZEROS : list N :=
  [ 48; 1632; 1776; 1984; 2406; 2534; 2662; 2790; 2918; 3046; 3174; 3302;
    3430; 3558; 3664; 3792; 3872; 4160; 4240; 6112; 6160; 6470; 6608; 6784;
    6800; 6992; 7088; 7232; 7248; 42528; 43216; 43264; 43472; 43504; 43600;
    44016; 65296; 66720; 68912; 69734; 69872; 69942; 70096; 70384; 70736;
    70864; 71248; 71360; 71472; 71904; 72016; 72784; 73040; 73120; 92768;
    92864; 93008; 120782; 120792; 120802; 120812; 120822; 123200; 123632;
    125264; 130032 ]%N.

Fixpoint decimal_in (zeros : list N) (c : N) : option N :=
  match zeros with
  | [] => None
  | z :: rest =>
    if ((z <=? c) && (c <? z + 10))%N then Some (c - z)%N else decimal_in rest c
  end.

Definition unicode_decimal : N → option N := decimal_in ND_ZEROS.

(** A rendering for the values whose [repr] is left to the interpreter;
    the sample requests have none in the fields that are formatted. *)
Definition repr (v : json) : pystr := u8 "<object>".

Definition article : json :=
  JObj [ (u8 "id", JStr (u8 "c686397e4a0f4f11683d"));
         (u8 "title", JStr (u8 "Pythonで始めるAPI入門"));
         (u8 "body", JStr (u8 "# はじめに"));
         (u8 "likes_count", JInt 10);
         (u8 "comments_count", JInt 2);
         (u8 "tags", JArr [ JObj [(u8 "name", JStr (u8 "python"))];
                            JObj [(u8 "name", JStr (u8 "api"))] ]) ].

(** A world in which the article exists, the model answers [answer] and
    nothing fails. *)
Definition world (answer : pystr) (now : Z) : World :=
  {| qiita_api := fun _ => HttpResponse 200 (Some article);
     chat_completion := fun _ => LlmMessage (Some answer);
     db_fault := fun _ => false;
     current_timestamp := now |}.

(** The content API answers with [status_code] and [body]. *)
Definition world_http (status_code : Z) (body : option json) : World :=
  {| qiita_api := fun _ => HttpResponse status_code body;
     chat_completion := fun _ => LlmMessage (Some (u8 "80点"));
     db_fault := fun _ => false;
     current_timestamp := 0 |}.

Definition evaluate := evaluate unicode_decimal repr.

Definition article_id : pystr := u8 "c686397e4a0f4f11683d".
Definition user : pystr := u8 "taro".

(** The table after one and after two identical requests on an empty
    table, at the same second. *)
Definition once : EvaluatePayload * list Row :=
  evaluate (world (u8 "85点") 1700000000) [] article_id user.
Definition twice : EvaluatePayload * list Row :=
  evaluate (world (u8 "85点") 1700000000) (snd once) article_id user.

(** Four requests: a success for taro, a missing article for taro, a
    success for hanako, and a later success for taro. *)
Definition calls : list Call :=
  [ {| call_world := world (u8 "85点") 1700000000;
       call_article_id := article_id; call_user := user |};
    {| call_world := world_http 404 None;
       call_article_id := article_id; call_user := user |};
    {| call_world := world (u8 "90点") 1700000030;
       call_article_id := article_id; call_user := u8 "hanako" |};
    {| call_world := world (u8 "点数は70点です") 1700000060;
       call_article_id := article_id; call_user := user |} ].

Definition served : list EvaluatePayload * list Row :=
  serve unicode_decimal repr calls [].

End Sample.

(** * Properties *)

(** ** Score extraction *)

Example u8_score_unit : u8 "点" = [SCORE_UNIT].
Proof. reflexivity. Qed.

Section ScoreSearch.
Variable unicode_decimal : N → option N.
Local Abbreviation isdecimal := (Re.isdecimal unicode_decimal).
Local Abbreviation matches := (digits_then_unit unicode_decimal).
Local Abbreviation first_match := (first_digits_then_unit unicode_decimal).
Local Abbreviation number := (decimal_number unicode_decimal).
Local Abbreviation step := (digit_step unicode_decimal).
Lemma match_here_repeat_digit {A} lo hi s g (k : list pystr → pystr → option A) :
  Re.match_here unicode_decimal (Re.Repeat lo hi Re.Digit) s g k =
  Re.repeat_greedy step lo hi s (k g).
Proof. reflexivity. Qed.

(** A successful greedy repetition consumed some admissible number of
    digits and the continuation succeeded right after them. *)
Lemma repeat_digit_Some {A} lo hi s (k : pystr → option A) x :
  Re.repeat_greedy step lo hi s k = Some x →
  ∃ n, lo ≤ n ≤ hi ∧ n ≤ length s ∧
       Forall (fun c => isdecimal c = true) (take n s) ∧ k (drop n s) = Some x.
Proof.
  revert lo s. induction hi as [|hi IH]; intros lo s; simpl.
  - destruct lo; [|done]. intros Hk. exists 0. rewrite take_0, drop_0.
    repeat split; auto with lia.
  - destruct (step s _) as [y|] eqn:Hstep.
    + intros [= ->]. unfold step in Hstep.
      destruct s as [|c t]; [done|]. destruct (isdecimal c) eqn:Hc; [|done].
      apply IH in Hstep as (n & Hn & Hlen & Hall & Hk).
      exists (S n). simpl. repeat split; auto with lia.
    + destruct lo; [|done]. intros Hk. exists 0. rewrite take_0, drop_0.
      repeat split; auto with lia.
Qed.

(** A failed greedy repetition means the continuation fails after every
    admissible number of digits. *)
Lemma repeat_digit_None {A} lo hi s (k : pystr → option A) n :
  Re.repeat_greedy step lo hi s k = None →
  lo ≤ n ≤ hi → n ≤ length s →
  Forall (fun c => isdecimal c = true) (take n s) → k (drop n s) = None.
Proof.
  revert lo s n. induction hi as [|hi IH]; intros lo s n; simpl.
  - intros Hr Hn _ _. assert (n = 0) as -> by lia. destruct lo; [done|lia].
  - destruct (step s _) as [y|] eqn:Hstep; [done|].
    intros Hr Hn Hlen Hall. destruct n as [|n].
    + destruct lo; [done|lia].
    + destruct s as [|c t]; simpl in *; [lia|].
      apply Forall_cons in Hall as [Hc Hall]. rewrite Hc in Hstep.
      apply (IH (pred lo)); auto with lia.
Qed.
Lemma match_at_score s :
  Re.match_at unicode_decimal SCORE_RE s = Re.repeat_greedy step 1 3 s (unit_then s).
Proof. reflexivity. Qed.

Lemma unit_then_drop s n :
  n ≤ length s →
  unit_then s (drop n s) = if bool_decide (s !! n = Some SCORE_UNIT) then Some [take n s] else None.
Proof.
  intros Hn. unfold unit_then. rewrite length_drop.
  replace (length s - (length s - n)) with n by lia.
  destruct (drop n s) as [|c t] eqn:Hd.
  - apply drop_nil_inv in Hd. rewrite lookup_ge_None_2 by lia.
    by rewrite bool_decide_eq_false_2.
  - assert (s !! n = Some c) as ->.
    { rewrite <-(Nat.add_0_r n), <-lookup_drop, Hd. done. }
    destruct (N.eqb_spec SCORE_UNIT c) as [<-|Hne].
    + by rewrite bool_decide_eq_true_2.
    + rewrite bool_decide_eq_false_2; [done|]. congruence.
Qed.

Lemma digits_then_unit_alt s i k :
  matches s i k ↔
  1 ≤ k ≤ 3 ∧ Forall (fun c => isdecimal c = true) (take k (drop i s)) ∧
  s !! (i + k) = Some SCORE_UNIT.
Proof.
  unfold digits_then_unit. split.
  - intros (Hk & Hd & Hu). split; [done|]. split; [|done].
    apply Forall_lookup. intros j c Hj.
    apply lookup_take_Some in Hj as [Hj Hlt]. rewrite lookup_drop in Hj.
    destruct (Hd j Hlt) as (c' & Hc' & Hdec). congruence.
  - intros (Hk & Hd & Hu). split; [done|]. split; [|done].
    intros j Hj. rewrite Forall_lookup in Hd.
    assert (is_Some (s !! (i + j))) as [c Hc].
    { apply lookup_lt_is_Some. apply lookup_lt_Some in Hu. lia. }
    exists c. split; [done|]. apply (Hd j).
    rewrite lookup_take_lt, lookup_drop; done.
Qed.

Lemma match_at_Some s g :
  Re.match_at unicode_decimal SCORE_RE s = Some g →
  ∃ k, matches s 0 k ∧ g = [take k s].
Proof.
  rewrite match_at_score. intros (n & Hn & Hlen & Hall & Hk)%repeat_digit_Some.
  rewrite unit_then_drop in Hk by done. case_bool_decide; [|done].
  exists n. split; [|congruence]. apply digits_then_unit_alt. by rewrite drop_0.
Qed.

Lemma match_at_None s k :
  Re.match_at unicode_decimal SCORE_RE s = None → ¬ matches s 0 k.
Proof.
  rewrite match_at_score. intros Hnone (Hk & Hall & Hu)%digits_then_unit_alt.
  rewrite drop_0 in Hall. simpl in Hu.
  assert (k ≤ length s) as Hlen by (apply lookup_lt_Some in Hu; lia).
  pose proof (repeat_digit_None _ _ _ _ k Hnone Hk Hlen Hall) as Hno.
  rewrite unit_then_drop, bool_decide_eq_true_2 in Hno; done.
Qed.

Lemma digits_then_unit_cons a s i k :
  matches (a :: s) (S i) k ↔ matches s i k.
Proof. done. Qed.

Lemma search_nil r :
  Re.search unicode_decimal r [] = Re.match_at unicode_decimal r [].
Proof. simpl. by destruct (Re.match_at unicode_decimal r []). Qed.

Lemma search_cons r a s :
  Re.search unicode_decimal r (a :: s) =
  match Re.match_at unicode_decimal r (a :: s) with
  | Some g => Some g
  | None => Re.search unicode_decimal r s
  end.
Proof. reflexivity. Qed.

Lemma search_Some s g :
  Re.search unicode_decimal SCORE_RE s = Some g →
  ∃ i k, first_match s i k ∧ g = [take k (drop i s)].
Proof.
  induction s as [|a s IH].
  - rewrite search_nil. intros (k & Hk & ->)%match_at_Some.
    exists 0, k. split; [split; [done | intros; lia] | done].
  - rewrite search_cons.
    destruct (Re.match_at unicode_decimal SCORE_RE (a :: s)) as [g'|] eqn:Hm.
    + intros [= ->]. apply match_at_Some in Hm as (k & Hk & ->).
      exists 0, k. split; [split; [done | intros; lia] | done].
    + intros (i & k & [Hk Hfirst] & ->)%IH. exists (S i), k.
      split; [split|done]; [done|].
      intros [|i'] k' Hk'.
      * by apply match_at_None with (k := k') in Hm.
      * apply digits_then_unit_cons, Hfirst in Hk'. lia.
Qed.

Lemma search_None s i k :
  Re.search unicode_decimal SCORE_RE s = None → ¬ matches s i k.
Proof.
  revert i. induction s as [|a s IH]; intros i.
  - intros _ (_ & _ & Hu). by rewrite lookup_nil in Hu.
  - rewrite search_cons.
    destruct (Re.match_at unicode_decimal SCORE_RE (a :: s)) eqn:Hm; [done|].
    intros Hs. destruct i as [|i].
    + by apply match_at_None.
    + rewrite digits_then_unit_cons. by apply IH.
Qed.

Lemma digits_then_unit_unique s i k k' :
  unicode_decimal SCORE_UNIT = None →
  matches s i k → matches s i k' → k = k'.
Proof.
  intros Hunit (Hk & Hd & Hu) (Hk' & Hd' & Hu').
  assert (isdecimal SCORE_UNIT = false) as Hnd.
  { unfold Re.isdecimal. rewrite Hunit. apply bool_decide_eq_false_2.
    by intros [? ?]. }
  destruct (Nat.lt_trichotomy k k') as [Hlt|[->|Hlt]]; [|done|].
  - destruct (Hd' k Hlt) as (c & Hc & Hdec). congruence.
  - destruct (Hd k' Hlt) as (c & Hc & Hdec). congruence.
Qed.
Lemma isdecimal_Some c :
  isdecimal c = true ↔ ∃ d, unicode_decimal c = Some d.
Proof. unfold Re.isdecimal. by rewrite bool_decide_eq_true. Qed.

Lemma int_of_digits_foldl ds n :
  Forall (fun c => isdecimal c = true) ds →
  foldl (fun acc c => n ← acc; d ← unicode_decimal c; Some (10 * n + Z.of_N d)%Z)
        (Some n) ds
  = Some (foldl (fun n c => 10 * n + Z.of_N (default 0%N (unicode_decimal c)))%Z n ds).
Proof.
  intros Hall. revert n. induction Hall as [|c ds Hc _ IH]; intros n; [done|].
  apply isdecimal_Some in Hc as [d Hd]. simpl. rewrite Hd. simpl. apply IH.
Qed.

(** [int] succeeds on a non-empty run of decimal digits and yields the
    number they denote. *)
Lemma int_of_digits_decimal ds :
  ds ≠ [] → Forall (fun c => isdecimal c = true) ds →
  Re.int_of_digits unicode_decimal ds = Some (number ds).
Proof.
  intros Hne Hall. unfold Re.int_of_digits, decimal_number.
  destruct ds as [|c ds]; [done|]. by apply int_of_digits_foldl.
Qed.

Lemma decimal_number_bound ds :
  (∀ c d, unicode_decimal c = Some d → (d < 10)%N) →
  Forall (fun c => isdecimal c = true) ds →
  (0 ≤ number ds < 10 ^ Z.of_nat (length ds))%Z.
Proof.
  intros Hlt Hall. unfold decimal_number.
  assert (∀ n, (0 ≤ n)%Z →
    let r := foldl (fun n c => 10 * n + Z.of_N (default 0%N (unicode_decimal c)))%Z n ds in
    (0 ≤ r < (n + 1) * 10 ^ Z.of_nat (length ds))%Z) as Hgen.
  { induction Hall as [|c ds Hc _ IH]; intros n Hn; simpl.
    - change (10 ^ Z.of_nat 0)%Z with 1%Z. lia.
    - apply isdecimal_Some in Hc as [d Hd]. rewrite Hd. simpl.
      specialize (Hlt _ _ Hd).
      specialize (IH (10 * n + Z.of_N d)%Z ltac:(lia)). simpl in IH.
      rewrite Nat2Z.inj_succ, Z.pow_succ_r by lia.
      assert (0 < 10 ^ Z.of_nat (length ds))%Z by (apply Z.pow_pos_nonneg; lia).
      nia. }
  specialize (Hgen 0%Z ltac:(lia)). simpl in Hgen. lia.
Qed.

(** The digits of a match are a non-empty run of decimal digits. *)
Lemma digits_then_unit_digits s i k :
  matches s i k →
  length (take k (drop i s)) = k ∧ 1 ≤ k ≤ 3 ∧
  Forall (fun c => isdecimal c = true) (take k (drop i s)).
Proof.
  intros (Hk & Hall & Hu)%digits_then_unit_alt.
  apply lookup_lt_Some in Hu. rewrite length_take, length_drop.
  repeat split; auto with lia.
Qed.

(** [extract_score] never raises: with a match it is the number of the
    digits of a first match, without one it is [None]. *)
Lemma extract_score_cases py_text :
  (∃ i k, first_match py_text i k ∧
          extract_score unicode_decimal py_text
          = Ok (Some (number (take k (drop i py_text))))) ∨
  ((∀ i k, ¬ matches py_text i k) ∧
   extract_score unicode_decimal py_text = Ok None).
Proof.
  unfold extract_score.
  destruct (Re.search unicode_decimal SCORE_RE py_text) as [g|] eqn:Hs.
  - left. apply search_Some in Hs as (i & k & Hfirst & ->).
    exists i, k. split; [done|]. unfold group1. simpl.
    destruct Hfirst as [Hm _].
    apply digits_then_unit_digits in Hm as (Hlen & Hk & Hall).
    rewrite int_of_digits_decimal; [done| |done].
    intros Hnil. rewrite Hnil in Hlen. simpl in Hlen. lia.
  - right. split; [|done]. intros i k. by apply search_None.
Qed.

(** With 点 not a digit, the first match is unique and decides the score. *)
Lemma extract_score_first py_text i k :
  unicode_decimal SCORE_UNIT = None →
  first_match py_text i k →
  extract_score unicode_decimal py_text
  = Ok (Some (number (take k (drop i py_text)))).
Proof.
  intros Hunit [Hm Hfirst].
  destruct (extract_score_cases py_text) as [(i0 & k0 & [Hm0 Hfirst0] & ->)|[Hno _]].
  - assert (i0 = i) as -> by (apply Hfirst in Hm0; apply Hfirst0 in Hm; lia).
    by rewrite (digits_then_unit_unique _ _ _ _ Hunit Hm0 Hm).
  - by apply Hno in Hm.
Qed.

Lemma extract_score_no_match py_text :
  (∀ i k, ¬ matches py_text i k) →
  extract_score unicode_decimal py_text = Ok None.
Proof.
  intros Hno.
  destruct (extract_score_cases py_text) as [(i0 & k0 & [Hm0 _] & _)|[_ ->]]; [|done].
  by apply Hno in Hm0.
Qed.

(** An extracted score has at most three digits. *)
Lemma extract_score_range py_text score :
  (∀ c d, unicode_decimal c = Some d → (d < 10)%N) →
  extract_score unicode_decimal py_text = Ok (Some score) →
  (0 ≤ score ≤ 999)%Z.
Proof.
  intros Hlt.
  destruct (extract_score_cases py_text) as [(i & k & [Hm _] & ->)|[_ ->]]; [|done].
  intros [= <-]. apply digits_then_unit_digits in Hm as (Hlen & Hk & Hall).
  pose proof (decimal_number_bound _ Hlt Hall) as Hb. rewrite Hlen in Hb.
  assert (10 ^ Z.of_nat k ≤ 10 ^ 3)%Z by (apply Z.pow_le_mono_r; lia).
  lia.
Qed.

(** When the 点 that ends the first match comes right after three or
    more digits, the score is made of the last three of them. *)
Lemma extract_score_long_run pre ds post :
  unicode_decimal SCORE_UNIT = None →
  Forall (fun c => isdecimal c = true) ds →
  3 ≤ length ds →
  (∀ i k, matches (pre ++ ds ++ SCORE_UNIT :: post) i k →
          length pre + length ds ≤ i + k) →
  extract_score unicode_decimal (pre ++ ds ++ SCORE_UNIT :: post)
  = Ok (Some (number (drop (length ds - 3) ds))).
Proof.
  intros Hunit Hds Hlen Hnone.
  set (s := pre ++ ds ++ SCORE_UNIT :: post) in *.
  set (i0 := length pre + (length ds - 3)).
  assert (take 3 (drop i0 s) = drop (length ds - 3) ds) as Htake.
  { unfold s, i0. rewrite drop_app_add, drop_app_le by lia.
    rewrite take_app_le by (rewrite length_drop; lia).
    apply take_ge. rewrite length_drop. lia. }
  assert (s !! (i0 + 3) = Some SCORE_UNIT) as Hu.
  { unfold s, i0. rewrite lookup_app_r by lia.
    rewrite lookup_app_r by lia.
    replace (_ - _ - _) with 0 by lia. done. }
  rewrite <-Htake. apply extract_score_first; [done|]. split.
  - apply digits_then_unit_alt. split; [lia|]. split; [|done].
    rewrite Htake. by apply Forall_drop.
  - intros i' k' Hm. pose proof (Hnone _ _ Hm) as Hge.
    destruct Hm as (Hk' & _ & _). unfold i0. lia.
Qed.

(** No match ends before the first 点 of the text. *)
Lemma no_match_before_first_unit pre ds post i k :
  unicode_decimal SCORE_UNIT = None →
  SCORE_UNIT ∉ pre →
  Forall (fun c => isdecimal c = true) ds →
  matches (pre ++ ds ++ SCORE_UNIT :: post) i k →
  length pre + length ds ≤ i + k.
Proof.
  intros Hunit Hpre Hds (_ & _ & Hu).
  destruct (decide (i + k < length pre)) as [Hlt|Hge].
  - rewrite lookup_app_l in Hu by done.
    apply list_elem_of_lookup_2 in Hu. done.
  - destruct (decide (i + k < length pre + length ds)) as [Hlt|Hge']; [|lia].
    rewrite lookup_app_r, lookup_app_l in Hu by lia.
    rewrite Forall_lookup in Hds. apply Hds in Hu.
    apply isdecimal_Some in Hu as [d Hd]. congruence.
Qed.
End ScoreSearch.

(** ** The handlers *)

(** Symbolic execution of a handler in hypothesis [H], one outcome at a
    time: reduce the monadic plumbing, and close the branch when the
    handler has ended with an error payload and the table it started from. *)
Ltac run_handler H :=
  cbv beta iota zeta delta [committed pending negb result_bind] in H;
  rewrite ?app_nil_r, ?app_nil_l in H;
  try (injection H as <- <-; right; by eauto).

(** The same reduction in the goal. *)
Ltac run_goal := cbv beta iota zeta delta [committed pending negb orb result_bind].

Lemma bind_text_Ok s s' : Sql.bind_text s = Ok s' → s' = s.
Proof. unfold Sql.bind_text. case_match; congruence. Qed.

Section HandlerFacts.
Variable unicode_decimal : N → option N.
Variable py_repr : json → pystr.

Lemma bind_score_Ok score score' :
  Sql.bind_score score = Ok score' → score' = score.
Proof.
  destruct score as [z|]; [|by intros [= <-]].
  unfold Sql.bind_score, Sql.bind. case_match; simpl; congruence.
Qed.

(** The two ways [evaluate] ends: a result with one more row, or an
    error with the table as it was. *)
Lemma evaluate_inv w db article_id user payload db' :
  evaluate unicode_decimal py_repr w db article_id user = (payload, db') →
  (∃ article evaluation score id_value title_value id title,
      get_qiita_article w article_id = Ok article ∧
      Py.truthy article = true ∧
      evaluate_article_with_openai py_repr w article
        (Some (map (fun r => (row_score r, row_review r))
                   (Sql.order_by_created_at (Sql.where_user user db))))
      = Ok evaluation ∧
      extract_score unicode_decimal evaluation = Ok score ∧
      Py.get article (u8 "id") JNull = Ok id_value ∧
      Sql.bind id_value = Ok id ∧
      Py.get article (u8 "title") JNull = Ok title_value ∧
      Sql.bind title_value = Ok title ∧
      payload = Evaluated user score evaluation ∧
      db' = db ++ [ {| row_id := Sql.max_id db + 1;
                       row_user := user;
                       row_article_id := Sql.text_column id;
                       row_title := Sql.text_column title;
                       row_score := score;
                       row_review := evaluation;
                       row_created_at := current_timestamp w |} ]) ∨
  (∃ error, payload = EvaluateError error ∧ db' = db).
Proof.
  intros Hev.
  unfold evaluate, evaluate_try, mbind, M_bind, mret, M_ret, lift,
    db_connect, select_score_review, insert_evaluation, commit, close,
    connect, visible in Hev.
  destruct (db_fault w DbConnect); run_handler Hev.
  destruct (db_fault w DbSelect); run_handler Hev.
  destruct (get_qiita_article w article_id) as [article|] eqn:Hget; run_handler Hev.
  destruct (Py.truthy article) eqn:Htruthy; run_handler Hev.
  destruct (evaluate_article_with_openai _ _ _ _) as [evaluation|] eqn:Heval;
    run_handler Hev.
  destruct (extract_score _ _) as [score|] eqn:Hextract; run_handler Hev.
  destruct (Py.get article (u8 "id") JNull) as [id_value|] eqn:Hid; run_handler Hev.
  destruct (Py.get article (u8 "title") JNull) as [title_value|] eqn:Htitle;
    run_handler Hev.
  destruct (Sql.bind id_value) as [id|] eqn:Hbid; run_handler Hev.
  destruct (Sql.bind title_value) as [title|] eqn:Hbtitle; run_handler Hev.
  destruct (Sql.bind_score score) as [score'|] eqn:Hscore; run_handler Hev.
  apply bind_score_Ok in Hscore as ->.
  destruct (Sql.bind_text evaluation) as [review|] eqn:Hreview; run_handler Hev.
  apply bind_text_Ok in Hreview as ->.
  destruct (db_fault w DbInsert); run_handler Hev.
  destruct (INT64_MAX <=? Sql.max_id db)%Z; run_handler Hev.
  destruct (db_fault w DbCommit); run_handler Hev.
  injection Hev as <- <-. left. by eexists _, _, _, id_value, title_value, _, _.
Qed.

(** Up to the fetch of the article: a database fault or an exception
    of the fetch gives the generic error, an article that is not truthy
    gives the article error; nothing is written in any of these cases. *)
Lemma evaluate_no_article w db article_id user :
  match get_qiita_article w article_id with
  | Ok article => Py.truthy article = false
  | Raise _ => True
  end →
  evaluate unicode_decimal py_repr w db article_id user =
  (EvaluateError
     (if db_fault w DbConnect || db_fault w DbSelect then ERR_UNEXPECTED
      else match get_qiita_article w article_id with
           | Ok _ => ERR_ARTICLE
           | Raise _ => ERR_UNEXPECTED
           end), db).
Proof.
  intros Harticle.
  unfold evaluate, evaluate_try, mbind, M_bind, mret, M_ret, lift,
    db_connect, select_score_review, connect, visible.
  destruct (db_fault w DbConnect); [run_goal; reflexivity|].
  destruct (db_fault w DbSelect); [run_goal; reflexivity|].
  destruct (get_qiita_article w article_id) as [article|e]; [|run_goal; reflexivity].
  rewrite Harticle. run_goal. reflexivity.
Qed.


Lemma get_qiita_article_non_200 w article_id status_code body :
  qiita_api w article_id = HttpResponse status_code body →
  status_code ≠ 200%Z →
  get_qiita_article w article_id = Ok JNull.
Proof.
  intros Hapi Hne. unfold get_qiita_article. rewrite Hapi.
  by rewrite (proj2 (Z.eqb_neq _ _) Hne).
Qed.

Lemma get_qiita_article_200 w article_id body :
  qiita_api w article_id = HttpResponse 200 body →
  get_qiita_article w article_id
  = match body with Some v => Ok v | None => Raise JSONDecodeError end.
Proof. intros Hapi. unfold get_qiita_article. by rewrite Hapi. Qed.

Lemma max_id_ge db r : r ∈ db → (row_id r ≤ Sql.max_id db)%Z.
Proof.
  induction 1 as [r db|r r' db _ IH]; simpl; lia.
Qed.

Lemma max_id_snoc db r :
  Sql.max_id (db ++ [r]) = Z.max (row_id r) (Sql.max_id db).
Proof. induction db as [|r' db IH]; simpl; [|rewrite IH]; lia. Qed.

Lemma max_id_nonneg db : (0 ≤ Sql.max_id db)%Z.
Proof. induction db; simpl; lia. Qed.
End HandlerFacts.

(** ** Claims on the outcome of [evaluate] *)

(** C2: when the content API answers with a status other than 200,
    [evaluate] returns an error payload and the table is unchanged. The
    message is the article message unless the history could not even be
    read, in which case it is the generic one. *)
Theorem evaluate_non_200 unicode_decimal py_repr w db article_id user status_code body :
  qiita_api w article_id = HttpResponse status_code body →
  status_code ≠ 200%Z →
  evaluate unicode_decimal py_repr w db article_id user =
  (EvaluateError (if db_fault w DbConnect || db_fault w DbSelect
                  then ERR_UNEXPECTED else ERR_ARTICLE), db).
Proof.
  intros Hapi Hne.
  pose proof (get_qiita_article_non_200 _ _ _ _ Hapi Hne) as Hget.
  rewrite evaluate_no_article; by rewrite Hget.
Qed.

Lemma evaluate_non_200_witness :
  Sample.evaluate (Sample.world_http 404 None) [] Sample.article_id Sample.user
  = (EvaluateError ERR_ARTICLE, []).
Proof.
  exact (evaluate_non_200 Sample.unicode_decimal Sample.repr
           (Sample.world_http 404 None) [] Sample.article_id Sample.user
           404%Z None eq_refl ltac:(discriminate)).
Defined.

(** C6: a request either completes and appends exactly one row, or ends
    with an error payload and leaves the table as it was. *)
Theorem evaluate_all_or_nothing unicode_decimal py_repr w db article_id user :
  (∃ score review row,
     evaluate unicode_decimal py_repr w db article_id user
     = (Evaluated user score review, db ++ [row])) ∨
  (∃ error,
     evaluate unicode_decimal py_repr w db article_id user
     = (EvaluateError error, db)).
Proof.
  destruct (evaluate unicode_decimal py_repr w db article_id user)
    as [payload db'] eqn:Hev.
  apply evaluate_inv in Hev
    as [(article & evaluation & score & idv & titlev & id & title &
         _ & _ & _ & _ & _ & _ & _ & _ & -> & ->)|(error & -> & ->)].
  - left. by eexists _, _, _.
  - right. by eexists.
Qed.

(** C7, as the code has it: a 200 answer whose body is not JSON makes
    [response.json()] raise, so [evaluate] returns the generic message,
    which is not the article message, and writes nothing. *)
Theorem evaluate_unparsable_body unicode_decimal py_repr w db article_id user :
  qiita_api w article_id = HttpResponse 200 None →
  evaluate unicode_decimal py_repr w db article_id user
  = (EvaluateError ERR_UNEXPECTED, db) ∧
  ERR_UNEXPECTED ≠ ERR_ARTICLE.
Proof.
  intros Hapi. split; [|discriminate].
  rewrite evaluate_no_article; rewrite (get_qiita_article_200 _ _ _ Hapi); [|done].
  by destruct (db_fault w DbConnect || db_fault w DbSelect).
Qed.

Lemma evaluate_unparsable_body_witness :
  Sample.evaluate (Sample.world_http 200 None) [] Sample.article_id Sample.user
  = (EvaluateError ERR_UNEXPECTED, []) ∧
  ERR_UNEXPECTED ≠ ERR_ARTICLE.
Proof.
  exact (evaluate_unparsable_body Sample.unicode_decimal Sample.repr
           (Sample.world_http 200 None) [] Sample.article_id Sample.user eq_refl).
Defined.

(** C7 as stated fails: the unparsable 200 answer and the 404 answer give
    different messages. *)
Lemma unparsable_body_differs_from_non_200 :
  fst (Sample.evaluate (Sample.world_http 404 None) [] Sample.article_id Sample.user)
  = EvaluateError ERR_ARTICLE ∧
  fst (Sample.evaluate (Sample.world_http 200 None) [] Sample.article_id Sample.user)
  ≠ EvaluateError ERR_ARTICLE.
Proof. split; vm_compute; [reflexivity|discriminate]. Qed.

(** C9: a 200 answer whose parsed body is not truthy (an empty object,
    an empty list, null, ...) is handled as a missing article: the article
    message, no row, the same outcome as for a status other than 200. *)
Theorem evaluate_falsy_body unicode_decimal py_repr w db article_id user body :
  qiita_api w article_id = HttpResponse 200 (Some body) →
  Py.truthy body = false →
  db_fault w DbConnect = false →
  db_fault w DbSelect = false →
  evaluate unicode_decimal py_repr w db article_id user
  = (EvaluateError ERR_ARTICLE, db) ∧
  ∀ w' status_code' body',
    qiita_api w' article_id = HttpResponse status_code' body' →
    status_code' ≠ 200%Z →
    db_fault w' DbConnect = false →
    db_fault w' DbSelect = false →
    evaluate unicode_decimal py_repr w' db article_id user
    = evaluate unicode_decimal py_repr w db article_id user.
Proof.
  intros Hapi Hfalsy Hc Hs.
  assert (evaluate unicode_decimal py_repr w db article_id user
          = (EvaluateError ERR_ARTICLE, db)) as Hev.
  { rewrite evaluate_no_article; rewrite (get_qiita_article_200 _ _ _ Hapi); [|done].
    by rewrite Hc, Hs. }
  split; [done|]. intros w' status_code' body' Hapi' Hne Hc' Hs'.
  pose proof (get_qiita_article_non_200 _ _ _ _ Hapi' Hne) as Hget'.
  rewrite Hev, evaluate_no_article; rewrite Hget'; [|done]. by rewrite Hc', Hs'.
Qed.

Lemma evaluate_falsy_body_witness :
  Sample.evaluate (Sample.world_http 200 (Some (JObj []))) [] Sample.article_id Sample.user
  = (EvaluateError ERR_ARTICLE, []).
Proof.
  exact (proj1 (evaluate_falsy_body Sample.unicode_decimal Sample.repr
                  (Sample.world_http 200 (Some (JObj []))) []
                  Sample.article_id Sample.user (JObj [])
                  eq_refl eq_refl eq_refl eq_refl)).
Defined.

(** ** Claims on the table *)

Section StableSort.
Context (R : relation Row) `{!RelDecision R}.

Lemma insert_by_Permutation r l : Sql.insert_by R r l ≡ₚ r :: l.
Proof.
  induction l as [|x l IH]; [done|]. cbn [Sql.insert_by].
  destruct (decide (R r x)); [done|]. by rewrite IH, Permutation_swap.
Qed.

Lemma sort_by_Permutation l : Sql.sort_by R l ≡ₚ l.
Proof.
  unfold Sql.sort_by. induction l as [|x l IH]; [done|].
  cbn [foldr]. by rewrite insert_by_Permutation, IH.
Qed.

Lemma StronglySorted_insert_by `{!Transitive R, !Total R} r l :
  StronglySorted R l → StronglySorted R (Sql.insert_by R r l).
Proof.
  induction 1 as [|x l Hl IH Hx]; cbn [Sql.insert_by]; [by repeat constructor|].
  destruct (decide (R r x)) as [Hrx|Hrx].
  - constructor; [by constructor|]. constructor; [done|].
    eapply Forall_impl; [exact Hx|]. intros y Hxy. by trans x.
  - constructor; [done|]. rewrite insert_by_Permutation. constructor; [|done].
    by destruct (total R r x).
Qed.

Lemma StronglySorted_sort_by `{!Transitive R, !Total R} l :
  StronglySorted R (Sql.sort_by R l).
Proof.
  unfold Sql.sort_by. induction l as [|x l IH]; [constructor|].
  cbn [foldr]. by apply StronglySorted_insert_by.
Qed.
End StableSort.

Lemma order_by_created_at_Permutation rows : Sql.order_by_created_at rows ≡ₚ rows.
Proof. unfold Sql.order_by_created_at, Sql.scan. by rewrite !sort_by_Permutation. Qed.

Lemma order_by_created_at_desc_Permutation rows :
  Sql.order_by_created_at_desc rows ≡ₚ rows.
Proof. unfold Sql.order_by_created_at_desc, Sql.scan. by rewrite !sort_by_Permutation. Qed.

#[local] Instance created_le_trans : Transitive Sql.created_le.
Proof. intros r1 r2 r3. unfold Sql.created_le. lia. Qed.

#[local] Instance created_le_total : Total Sql.created_le.
Proof. intros r1 r2. unfold Sql.created_le. lia. Qed.

#[local] Instance created_ge_trans : Transitive Sql.created_ge.
Proof. intros r1 r2 r3. unfold Sql.created_ge. lia. Qed.

#[local] Instance created_ge_total : Total Sql.created_ge.
Proof. intros r1 r2. unfold Sql.created_ge. lia. Qed.

Lemma newest_first_map rows :
  StronglySorted Sql.created_ge rows → newest_first (map history_item rows).
Proof.
  unfold newest_first. induction 1 as [|r l _ IH Hall]; simpl.
  - constructor.
  - constructor; [done|]. clear IH.
    induction Hall as [|r' l' Hr' _ IH']; simpl; constructor; done.
Qed.

Lemma newest_first_history rows :
  newest_first (map history_item (Sql.order_by_created_at_desc rows)).
Proof. apply newest_first_map, StronglySorted_sort_by; apply _. Qed.

(** Without a database fault [get_user_history] returns the rows of the
    user, newest first, and changes nothing. *)
Lemma get_user_history_ok w db user :
  db_fault w DbConnect = false →
  db_fault w DbSelect = false →
  get_user_history w db user
  = (History user (map history_item
                      (Sql.order_by_created_at_desc (Sql.where_user user db))), db).
Proof.
  intros Hc Hs.
  unfold get_user_history, mbind, M_bind, mret, M_ret, db_connect, select_history,
    close, connect, visible.
  rewrite Hc, Hs. run_goal. by rewrite app_nil_r.
Qed.

(** Serving requests adds one row of [user] per successful evaluation
    for [user] and no other row of that user. *)
Lemma serve_user_rows unicode_decimal py_repr calls db user payloads db' :
  serve unicode_decimal py_repr calls db = (payloads, db') →
  length (Sql.where_user user db')
  = length (Sql.where_user user db) + length (filter (evaluated_for user) payloads).
Proof.
  revert db payloads db'. induction calls as [|c calls IH]; intros db payloads db'.
  - intros [= <- <-]. rewrite filter_nil. simpl. lia.
  - cbn [serve].
    destruct (evaluate _ _ _ _ _ _) as [payload db1] eqn:Hev.
    destruct (serve _ _ calls db1) as [rest db2] eqn:Hserve.
    intros [= <- <-]. rewrite (IH _ _ _ Hserve).
    apply evaluate_inv in Hev
      as [(article & evaluation & score & idv & titlev & id & title &
           _ & _ & _ & _ & _ & _ & _ & _ & -> & ->)|(error & -> & ->)].
    + unfold Sql.where_user at 1. rewrite filter_app, length_app.
      destruct (decide (call_user c = user)) as [Heq|Hne].
      * rewrite (filter_cons_True (evaluated_for user)) by done.
        rewrite filter_cons_True by done. simpl. unfold Sql.where_user. lia.
      * rewrite (filter_cons_False (evaluated_for user)) by done.
        rewrite filter_cons_False by done. simpl. unfold Sql.where_user. lia.
    + rewrite (filter_cons_False (evaluated_for user)) by (simpl; tauto). done.
Qed.

(** C5: after any sequence of requests on a table without rows of
    [user], of which N were successful evaluations for [user],
    [get_user_history] returns exactly N records, newest first. *)
Theorem history_after_evaluations unicode_decimal py_repr calls db user payloads db' w :
  Sql.where_user user db = [] →
  serve unicode_decimal py_repr calls db = (payloads, db') →
  db_fault w DbConnect = false →
  db_fault w DbSelect = false →
  ∃ history,
    get_user_history w db' user = (History user history, db') ∧
    length history = length (filter (evaluated_for user) payloads) ∧
    newest_first history.
Proof.
  intros Hempty Hserve Hc Hs. eexists. split; [by apply get_user_history_ok|].
  split; [|apply newest_first_history].
  rewrite length_map.
  rewrite (Permutation_length (order_by_created_at_desc_Permutation _)).
  rewrite (serve_user_rows _ _ _ _ _ _ _ Hserve), Hempty. done.
Qed.

(** C8: two successful evaluations with the same arguments leave two
    rows more, with keys that differ from each other and from every key
    of the table before; both carry the user, and the same article id
    when the content API gave the same answer. Nothing is deduplicated. *)
Theorem evaluate_twice unicode_decimal py_repr w1 w2 db article_id user
    score1 review1 db1 score2 review2 db2 :
  evaluate unicode_decimal py_repr w1 db article_id user
  = (Evaluated user score1 review1, db1) →
  evaluate unicode_decimal py_repr w2 db1 article_id user
  = (Evaluated user score2 review2, db2) →
  ∃ r1 r2,
    db2 = db ++ [r1; r2] ∧
    (row_id r1 < row_id r2)%Z ∧
    (∀ r, r ∈ db → (row_id r < row_id r1)%Z) ∧
    row_user r1 = user ∧ row_user r2 = user ∧
    (qiita_api w1 article_id = qiita_api w2 article_id →
     row_article_id r1 = row_article_id r2).
Proof.
  intros Hev1 Hev2.
  apply evaluate_inv in Hev1
    as [(article1 & evaluation1 & sc1 & idv1 & titlev1 & id1 & title1 &
         Hget1 & _ & _ & _ & Hid1 & Hbind1 & _ & _ & _ & ->)|(error & [=] & _)].
  apply evaluate_inv in Hev2
    as [(article2 & evaluation2 & sc2 & idv2 & titlev2 & id2 & title2 &
         Hget2 & _ & _ & _ & Hid2 & Hbind2 & _ & _ & _ & ->)|(error & [=] & _)].
  eexists _, _. split; [by rewrite <-app_assoc|]. cbn [row_id row_user row_article_id].
  rewrite max_id_snoc. cbn [row_id]. repeat split; try done.
  - lia.
  - intros r Hr%max_id_ge. lia.
  - intros Hapi. unfold get_qiita_article in Hget1, Hget2. rewrite Hapi in Hget1.
    congruence.
Qed.

Lemma evaluate_twice_witness :
  ∃ r1 r2,
    snd Sample.twice = [] ++ [r1; r2] ∧
    (row_id r1 < row_id r2)%Z ∧
    (∀ r, r ∈ [] → (row_id r < row_id r1)%Z) ∧
    row_user r1 = Sample.user ∧ row_user r2 = Sample.user ∧
    (qiita_api (Sample.world (u8 "85点") 1700000000) Sample.article_id
     = qiita_api (Sample.world (u8 "85点") 1700000000) Sample.article_id →
     row_article_id r1 = row_article_id r2).
Proof.
  eapply (evaluate_twice Sample.unicode_decimal Sample.repr
            (Sample.world (u8 "85点") 1700000000) (Sample.world (u8 "85点") 1700000000)
            [] Sample.article_id Sample.user);
    vm_compute; reflexivity.
Defined.

(** ** Claims on the score *)

Lemma extract_score_spec unicode_decimal py_text :
  unicode_decimal SCORE_UNIT = None →
  ∃ score, extract_score unicode_decimal py_text = Ok score ∧
           score_of_first_match unicode_decimal py_text score.
Proof.
  intros Hunit.
  destruct (extract_score_cases unicode_decimal py_text)
    as [(i & k & Hfirst & Hex)|[Hno Hex]].
  - eexists. split; [done|]. split; [|split].
    + intros i' k' Hfirst'.
      pose proof (extract_score_first _ _ _ _ Hunit Hfirst') as Hex'. congruence.
    + intros _. by exists i, k.
    + intros Hno. destruct Hfirst as [Hm _]. by apply Hno in Hm.
  - exists None. split; [done|]. split; [|split]; [|intros (i & k & Hm)|done].
    + intros i k [Hm _]. by apply Hno in Hm.
    + by apply Hno in Hm.
Qed.

(** C1: the score of a text is the number written by the digits of its
    first match of 1-3 digits followed by 点, and null without a match;
    [evaluate] returns this score of the review it returns, and stores
    both in the row it appends. *)
Theorem evaluate_score_is_first_match unicode_decimal py_repr :
  unicode_decimal SCORE_UNIT = None →
  (∀ py_text, ∃ score,
      extract_score unicode_decimal py_text = Ok score ∧
      score_of_first_match unicode_decimal py_text score) ∧
  (∀ w db article_id user u score review db',
      evaluate unicode_decimal py_repr w db article_id user
      = (Evaluated u score review, db') →
      score_of_first_match unicode_decimal review score ∧
      ∃ row, db' = db ++ [row] ∧ row_score row = score ∧ row_review row = review).
Proof.
  intros Hunit. split; [intros py_text; by apply extract_score_spec|].
  intros w db article_id user u score review db' Hev.
  apply evaluate_inv in Hev
    as [(article & evaluation & sc & idv & titlev & id & title &
         _ & _ & _ & Hex & _ & _ & _ & _ & [= -> -> ->] & ->)|(error & [=] & _)].
  split; [|by eexists].
  destruct (extract_score_spec unicode_decimal evaluation Hunit) as (sc' & Hex' & Hspec).
  congruence.
Qed.

Lemma evaluate_score_is_first_match_witness :
  score_of_first_match Sample.unicode_decimal (u8 "85点") (Some 85%Z) ∧
  ∃ row, snd Sample.once = [] ++ [row] ∧
         row_score row = Some 85%Z ∧ row_review row = u8 "85点".
Proof.
  refine (proj2 (evaluate_score_is_first_match Sample.unicode_decimal Sample.repr _)
            (Sample.world (u8 "85点") 1700000000) [] Sample.article_id Sample.user
            Sample.user (Some 85%Z) (u8 "85点") (snd Sample.once) _);
    vm_compute; reflexivity.
Defined.

(** C10: an extracted score lies between 0 and 999; when the 点 that
    ends the first match comes right after four or more digits, the
    score is the number written by the last three of them. *)
Theorem extracted_score_three_digits unicode_decimal :
  unicode_decimal SCORE_UNIT = None →
  (∀ c d, unicode_decimal c = Some d → (d < 10)%N) →
  (∀ py_text score,
      extract_score unicode_decimal py_text = Ok (Some score) →
      (0 ≤ score ≤ 999)%Z) ∧
  (∀ pre digits post,
      Forall (fun c => Re.isdecimal unicode_decimal c = true) digits →
      4 ≤ length digits →
      (∀ i k, digits_then_unit unicode_decimal (pre ++ digits ++ SCORE_UNIT :: post) i k →
              length pre + length digits ≤ i + k) →
      extract_score unicode_decimal (pre ++ digits ++ SCORE_UNIT :: post)
      = Ok (Some (decimal_number unicode_decimal (drop (length digits - 3) digits)))).
Proof.
  intros Hunit Hlt. split.
  - intros py_text score. by apply extract_score_range.
  - intros pre digits post Hds Hlen Hfirst.
    apply extract_score_long_run; auto with lia.
Qed.

(** ** Whitespace normalisation of the review *)

Section Normalisation.

(** Induction on a list, two elements at a time. *)
Lemma list_pair_ind {A} (P : list A → Prop) :
  P [] → (∀ a, P [a]) →
  (∀ a b t, P t → P (b :: t) → P (a :: b :: t)) →
  ∀ l, P l.
Proof.
  intros Hnil Hone Hstep l.
  assert (P l ∧ ∀ a, P (a :: l)) as [? _]; [|done].
  induction l as [|b t [IH1 IH2]]; [by split|]. split; [apply IH2|].
  intros a. by apply Hstep.
Qed.

Lemma replace_newline s :
  replace [LF] [SPACE] s = map (fun c => if (c =? LF)%N then SPACE else c) s.
Proof.
  unfold replace. induction s as [|c t IH]; [done|].
  cbn [replace_go startswith length Nat.sub map].
  rewrite andb_true_r, (N.eqb_sym c LF).
  destruct (LF =? c)%N; cbn [app]; by rewrite IH.
Qed.

Lemma collapse_pair t :
  replace [SPACE; SPACE] [SPACE] (SPACE :: SPACE :: t)
  = SPACE :: replace [SPACE; SPACE] [SPACE] t.
Proof. reflexivity. Qed.

Lemma collapse_other c t :
  ¬ (c = SPACE ∧ head t = Some SPACE) →
  replace [SPACE; SPACE] [SPACE] (c :: t) = c :: replace [SPACE; SPACE] [SPACE] t.
Proof.
  intros Hne. unfold replace. cbn [replace_go startswith].
  destruct (N.eqb_spec SPACE c) as [<-|?]; [|done].
  destruct t as [|b t]; [done|]. rewrite andb_true_r.
  destruct (N.eqb_spec SPACE b) as [<-|?]; [|done]. by destruct Hne.
Qed.

Lemma collapse_head s :
  head (replace [SPACE; SPACE] [SPACE] s) = head s.
Proof.
  destruct s as [|a t]; [done|].
  destruct (decide (a = SPACE ∧ head t = Some SPACE)) as [[-> Ht]|Hne].
  - destruct t as [|b t]; [done|]. injection Ht as ->. by rewrite collapse_pair.
  - by rewrite collapse_other.
Qed.

Lemma collapse_single a :
  replace [SPACE; SPACE] [SPACE] [a] = [a].
Proof. rewrite collapse_other; [done|]. by intros [_ ?]. Qed.

Lemma collapse_elem_of x s :
  x ∈ replace [SPACE; SPACE] [SPACE] s → x ∈ s.
Proof.
  induction s as [| a | a b t IH1 IH2] using list_pair_ind;
    [done|by rewrite collapse_single|].
  destruct (decide (a = SPACE ∧ head (b :: t) = Some SPACE)) as [[-> [= ->]]|Hne].
  - rewrite collapse_pair, !elem_of_cons. tauto.
  - rewrite collapse_other by done. rewrite (elem_of_cons (b :: t)), elem_of_cons.
    tauto.
Qed.

Lemma collapse_elem_of_inv x s :
  x ∈ s → x ∈ replace [SPACE; SPACE] [SPACE] s.
Proof.
  induction s as [| a | a b t IH1 IH2] using list_pair_ind;
    [done|by rewrite collapse_single|].
  destruct (decide (a = SPACE ∧ head (b :: t) = Some SPACE)) as [[-> [= ->]]|Hne].
  - rewrite collapse_pair, !elem_of_cons. tauto.
  - rewrite collapse_other by done. rewrite (elem_of_cons (b :: t)).
    intros [->|Hin]; [by left|right]. by apply IH2.
Qed.

Lemma contains_cons p a s :
  contains p (a :: s) = startswith p (a :: s) || contains p s.
Proof. reflexivity. Qed.

Lemma startswith_pair s :
  startswith [SPACE; SPACE] s = true ↔ ∃ t, s = SPACE :: SPACE :: t.
Proof.
  split.
  - destruct s as [|a [|b t]]; cbn [startswith]; rewrite ?andb_false_r; [done..|].
    rewrite andb_true_r, andb_true_iff, !N.eqb_eq. intros [<- <-]. by eexists.
  - by intros [t ->].
Qed.

(** Two spaces in a row after the pass come from three in a row before. *)
Lemma collapse_contains s :
  contains [SPACE; SPACE] (replace [SPACE; SPACE] [SPACE] s) = true →
  contains [SPACE; SPACE; SPACE] s = true.
Proof.
  induction s as [| a | a b t IH1 IH2] using list_pair_ind; [done| |].
  { rewrite collapse_single. cbn [contains startswith].
    by rewrite andb_false_r. }
  destruct (decide (a = SPACE ∧ head (b :: t) = Some SPACE)) as [[-> [= ->]]|Hne].
  - rewrite collapse_pair, contains_cons, orb_true_iff. intros [Hstart|Hin].
    + apply startswith_pair in Hstart as [t' [= Ht']].
      pose proof (collapse_head t) as Hhead. rewrite Ht' in Hhead.
      destruct t as [|c t'']; [done|]. injection Hhead as <-. done.
    + rewrite !contains_cons, (IH1 Hin). by rewrite !orb_true_r.
  - rewrite collapse_other by done. rewrite contains_cons, orb_true_iff.
    intros [Hstart|Hin].
    + apply startswith_pair in Hstart as [t' [= -> Ht']].
      pose proof (collapse_head (b :: t)) as Hhead. rewrite Ht' in Hhead.
      injection Hhead as <-. by destruct Hne.
    + rewrite contains_cons, (IH2 Hin). by rewrite orb_true_r.
Qed.

Lemma lstrip_split s :
  ∃ pre, s = pre ++ lstrip s ∧ Forall (fun c => isspace c = true) pre.
Proof.
  induction s as [|c t (pre & Heq & Hpre)]; [by exists []|].
  cbn [lstrip]. destruct (isspace c) eqn:Hc.
  - exists (c :: pre). split; [by rewrite Heq at 1|by constructor].
  - by exists [].
Qed.

Lemma lstrip_head s c : head (lstrip s) = Some c → isspace c = false.
Proof.
  induction s as [|a t IH]; [done|]. cbn [lstrip].
  destruct (isspace a) eqn:Ha; [done|]. by intros [= <-].
Qed.

Lemma rstrip_split s :
  ∃ post, s = rstrip s ++ post ∧ Forall (fun c => isspace c = true) post.
Proof.
  destruct (lstrip_split (reverse s)) as (pre & Heq & Hpre).
  exists (reverse pre). split; [|by apply Forall_reverse].
  unfold rstrip. by rewrite <-reverse_app, <-Heq, reverse_involutive.
Qed.

Lemma rstrip_last s c : last (rstrip s) = Some c → isspace c = false.
Proof. unfold rstrip. rewrite last_reverse. apply lstrip_head. Qed.

(** [strip] cuts whitespace off both ends and nothing else. *)
Lemma strip_split s :
  ∃ pre post, s = pre ++ strip s ++ post ∧
              Forall (fun c => isspace c = true) pre ∧
              Forall (fun c => isspace c = true) post.
Proof.
  destruct (lstrip_split s) as (pre & Heq & Hpre).
  destruct (rstrip_split (lstrip s)) as (post & Heq' & Hpost).
  exists pre, post. unfold strip. by rewrite <-Heq'.
Qed.

Lemma strip_last s c : last (strip s) = Some c → isspace c = false.
Proof. apply rstrip_last. Qed.

Lemma strip_head s c : head (strip s) = Some c → isspace c = false.
Proof.
  unfold strip. destruct (rstrip_split (lstrip s)) as (post & Heq & _).
  intros Hhead. apply (lstrip_head s). rewrite Heq.
  by destruct (rstrip (lstrip s)).
Qed.

Lemma strip_nonempty s :
  strip s ≠ [] ↔ ∃ c, c ∈ s ∧ isspace c = false.
Proof.
  destruct (strip_split s) as (pre & post & Heq & Hpre & Hpost). split.
  - intros Hne. destruct (strip s) as [|c t] eqn:Hs; [done|].
    exists c. split.
    + rewrite Heq, !elem_of_app, elem_of_cons. tauto.
    + apply (strip_head s). by rewrite Hs.
  - intros (c & Hc & Hns) Hnil. rewrite Hnil in Heq. simpl in Heq.
    rewrite Heq, elem_of_app in Hc. rewrite Forall_forall in Hpre, Hpost.
    destruct Hc as [Hc|Hc]; [apply Hpre in Hc|apply Hpost in Hc]; congruence.
Qed.

Lemma startswith_app p s b :
  startswith p s = true → startswith p (s ++ b) = true.
Proof.
  revert s. induction p as [|x p IH]; intros [|y s]; cbn [startswith app]; try done.
  rewrite !andb_true_iff. intros [? ?]. auto.
Qed.

Lemma contains_app_l p s b :
  contains p s = true → contains p (s ++ b) = true.
Proof.
  induction s as [|y s IH].
  - cbn [contains]. rewrite orb_false_r. destruct p; [|done].
    intros _. by destruct b.
  - cbn [app]. rewrite !contains_cons, !orb_true_iff.
    intros [Hs|Hc]; [left|right; auto]. by apply (startswith_app p (y :: s)).
Qed.

Lemma contains_app_r p a s :
  contains p s = true → contains p (a ++ s) = true.
Proof.
  intros Hc. induction a as [|y a IH]; [done|].
  cbn [app]. by rewrite contains_cons, IH, orb_true_r.
Qed.

Lemma strip_contains p s :
  contains p (strip s) = true → contains p s = true.
Proof.
  destruct (strip_split s) as (pre & post & Heq & _ & _). intros Hc.
  rewrite Heq. by apply contains_app_r, contains_app_l.
Qed.

Lemma replace_newline_elem_of x raw :
  x ∈ replace [LF] [SPACE] raw ↔
  ∃ c, c ∈ raw ∧ x = if (c =? LF)%N then SPACE else c.
Proof.
  rewrite replace_newline, list_elem_of_In, in_map_iff.
  setoid_rewrite <-list_elem_of_In.
  split; intros (c & H1 & H2); exists c; done.
Qed.

(** What [clean] guarantees about the review. *)
Lemma clean_spec raw :
  (LF ∉ clean raw) ∧
  (∀ c, head (clean raw) = Some c → isspace c = false) ∧
  (∀ c, last (clean raw) = Some c → isspace c = false) ∧
  (clean raw ≠ [] ↔ ∃ c, c ∈ raw ∧ isspace c = false) ∧
  (contains [SPACE; SPACE; SPACE] (replace [LF] [SPACE] raw) = false →
   contains [SPACE; SPACE] (clean raw) = false).
Proof.
  unfold clean. repeat split.
  - intros Hin. destruct (strip_split (replace [SPACE; SPACE] [SPACE]
                                          (replace [LF] [SPACE] raw)))
      as (pre & post & Heq & _ & _).
    assert (LF ∈ replace [LF] [SPACE] raw) as Hnl.
    { apply collapse_elem_of. rewrite Heq, !elem_of_app. tauto. }
    apply replace_newline_elem_of in Hnl as (c & _ & Hc).
    destruct (N.eqb_spec c LF); [done|congruence].
  - apply strip_head.
  - apply strip_last.
  - intros (c & Hc & Hns)%strip_nonempty.
    apply collapse_elem_of, replace_newline_elem_of in Hc as (c' & Hc' & ->).
    exists c'. split; [done|]. by destruct (N.eqb_spec c' LF).
  - intros (c & Hc & Hns). apply strip_nonempty.
    exists c. split; [|done]. apply collapse_elem_of_inv, replace_newline_elem_of.
    exists c. split; [done|]. destruct (N.eqb_spec c LF) as [->|]; done.
  - intros Hno. apply not_true_is_false. intros Hc%strip_contains.
    apply collapse_contains in Hc. congruence.
Qed.

(** One pass halves a run of spaces, rounding up. *)
Lemma collapse_run n t :
  head t ≠ Some SPACE →
  replace [SPACE; SPACE] [SPACE] (repeat SPACE n ++ t)
  = repeat SPACE (Nat.div2 (S n)) ++ replace [SPACE; SPACE] [SPACE] t.
Proof.
  intros Ht.
  assert (∀ m, m ≤ n →
    replace [SPACE; SPACE] [SPACE] (repeat SPACE m ++ t)
    = repeat SPACE (Nat.div2 (S m)) ++ replace [SPACE; SPACE] [SPACE] t) as Hgen;
    [|by apply Hgen].
  induction n as [|n IH]; intros m Hm.
  - by replace m with 0 by lia.
  - destruct m as [|[|m]]; [done| |].
    + cbn [repeat app Nat.div2]. rewrite collapse_other; [done|]. by intros [_ ?].
    + cbn [repeat app]. rewrite collapse_pair, IH by lia. done.
Qed.
End Normalisation.

Lemma evaluate_article_with_openai_inv py_repr w article past_reviews evaluation :
  evaluate_article_with_openai py_repr w article past_reviews = Ok evaluation →
  ∃ prompt raw,
    build_prompt py_repr article past_reviews = Ok prompt ∧
    chat_completion w prompt = LlmMessage (Some raw) ∧
    evaluation = clean raw.
Proof.
  unfold evaluate_article_with_openai, mbind, result_bind.
  destruct (build_prompt py_repr article past_reviews) as [prompt|]; [|done].
  destruct (chat_completion w prompt) as [|[raw|]] eqn:Hllm; [done| |done].
  intros [= <-]. by exists prompt, raw.
Qed.

(** C3, as the code has it: the review is the answer of the model with
    every newline replaced by a space, then one pass that replaces each
    pair of adjacent spaces by one space, then trimmed. It has no newline
    and no whitespace at either end; it is non-empty exactly when the
    answer has a character that is not whitespace; it has no two spaces in
    a row provided the answer, newlines replaced, has no three in a row. *)
Theorem review_is_cleaned_answer unicode_decimal py_repr w db article_id user
    u score review db' :
  evaluate unicode_decimal py_repr w db article_id user
  = (Evaluated u score review, db') →
  ∃ prompt raw,
    chat_completion w prompt = LlmMessage (Some raw) ∧
    review = strip (replace [SPACE; SPACE] [SPACE] (replace [LF] [SPACE] raw)) ∧
    (LF ∉ review) ∧
    (∀ c, head review = Some c → isspace c = false) ∧
    (∀ c, last review = Some c → isspace c = false) ∧
    (review ≠ [] ↔ ∃ c, c ∈ raw ∧ isspace c = false) ∧
    (contains [SPACE; SPACE; SPACE] (replace [LF] [SPACE] raw) = false →
     contains [SPACE; SPACE] review = false).
Proof.
  intros Hev.
  apply evaluate_inv in Hev
    as [(article & evaluation & sc & idv & titlev & id & title &
         _ & _ & Heval & _ & _ & _ & _ & _ & [= -> -> ->] & ->)|(error & [=] & _)].
  apply evaluate_article_with_openai_inv in Heval as (prompt & raw & _ & Hllm & ->).
  exists prompt, raw. split; [done|]. split; [done|]. apply clean_spec.
Qed.

Lemma review_is_cleaned_answer_witness :
  ∃ prompt raw,
    chat_completion (Sample.world (u8 "85点") 1700000000) prompt = LlmMessage (Some raw) ∧
    u8 "85点" = strip (replace [SPACE; SPACE] [SPACE] (replace [LF] [SPACE] raw)) ∧
    (LF ∉ u8 "85点") ∧
    (∀ c, head (u8 "85点") = Some c → isspace c = false) ∧
    (∀ c, last (u8 "85点") = Some c → isspace c = false) ∧
    (u8 "85点" ≠ [] ↔ ∃ c, c ∈ raw ∧ isspace c = false) ∧
    (contains [SPACE; SPACE; SPACE] (replace [LF] [SPACE] raw) = false →
     contains [SPACE; SPACE] (u8 "85点") = false).
Proof.
  eapply (review_is_cleaned_answer Sample.unicode_decimal Sample.repr
            (Sample.world (u8 "85点") 1700000000) [] Sample.article_id Sample.user
            Sample.user (Some 85%Z) (u8 "85点") (snd Sample.once)).
  vm_compute. reflexivity.
Defined.

(** C3 as stated fails: three spaces in the answer leave two in the
    review, and an answer of whitespace only leaves an empty review. *)
Lemma review_keeps_two_spaces_and_may_be_empty :
  (∃ review,
     fst (Sample.evaluate
            (Sample.world (u8 "85点" ++ [LF] ++ u8 "理由:   よい") 1700000000)
            [] Sample.article_id Sample.user)
     = Evaluated Sample.user (Some 85%Z) review ∧
     review = u8 "85点 理由:  よい" ∧
     contains [SPACE; SPACE] review = true) ∧
  fst (Sample.evaluate (Sample.world [LF] 1700000000) [] Sample.article_id Sample.user)
  = Evaluated Sample.user None [].
Proof.
  split; [eexists; split; [vm_compute; reflexivity|split; vm_compute; reflexivity]|].
  vm_compute. reflexivity.
Qed.

(** ** The history digest of the prompt *)

Section Digest.

Lemma foldl_lines (init : pystr) (l : list (nat * (option Z * pystr))) :
  foldl (fun acc '(idx, (score, review)) => acc ++ history_line idx score review) init l
  = init ++ concat (map (fun '(idx, (score, review)) => history_line idx score review) l).
Proof.
  revert init. induction l as [|[idx [score review]] l IH]; intros init;
    cbn [foldl map concat].
  - by rewrite app_nil_r.
  - by rewrite IH, <-app_assoc.
Qed.

Lemma enumerate_map {A} (f : nat → A → pystr) (dflt : pystr) start (l : list A) :
  map (fun '(idx, x) => f idx x) (Py.enumerate start l)
  = map (fun k => match l !! (k - start) with Some x => f k x | None => dflt end)
        (seq start (length l)).
Proof.
  revert start. induction l as [|x l IH]; intros start; [done|].
  cbn [Py.enumerate map length seq]. rewrite Nat.sub_diag. cbn [lookup list_lookup].
  f_equal. rewrite IH. apply map_ext_in. intros k Hk%in_seq.
  replace (k - start) with (S (k - S start)) by lia. done.
Qed.

(** The line the loop appends is the line of the digest. *)
Lemma history_line_digest_line idx score review :
  history_line idx score review = digest_line idx score review.
Proof. unfold history_line, digest_line, Py.str_of_score. by destruct score. Qed.

(** The loop over [enumerate(reversed(past_reviews), 1)] writes the digest. *)
Lemma history_loop past :
  foldl (fun acc '(idx, (score, review)) => acc ++ history_line idx score review)
        HISTORY_HEADER (Py.enumerate 1 (reverse past))
  = HISTORY_HEADER ++ digest past.
Proof.
  rewrite foldl_lines. f_equal. unfold digest. f_equal.
  etrans;
    [exact (enumerate_map (fun idx '(score, review) => history_line idx score review) []
              1 (reverse past))|].
  rewrite length_reverse. apply map_ext_in. intros k Hk%in_seq.
  rewrite reverse_lookup by lia.
  replace (length past - S (k - 1)) with (length past - k) by lia.
  destruct (past !! (length past - k)) as [[score review]|]; [|done].
  apply history_line_digest_line.
Qed.

Lemma history_prompt_cases past_reviews :
  history_prompt past_reviews =
  match past_reviews with
  | Some (entry :: past) => HISTORY_HEADER ++ digest (entry :: past) ++ HISTORY_INSTRUCTION
  | Some [] | None => FIRST_EVALUATION
  end.
Proof.
  destruct past_reviews as [[|entry past]|]; [done| |done].
  unfold history_prompt. by rewrite history_loop, <-app_assoc.
Qed.

Lemma occurs_in_app_l p s after : occurs_in p s → occurs_in p (s ++ after).
Proof.
  intros (b1 & a1 & ->). exists b1, (a1 ++ after). by rewrite <-!app_assoc.
Qed.

Lemma occurs_in_app_r p before s : occurs_in p s → occurs_in p (before ++ s).
Proof.
  intros (b1 & a1 & ->). exists (before ++ b1), a1. by rewrite <-!app_assoc.
Qed.

Lemma occurs_in_unlines l ls : l ∈ ls → occurs_in l (unlines ls).
Proof.
  unfold unlines. induction 1 as [l ls|l l' ls _ IH]; cbn [map concat].
  - exists [], ([LF] ++ concat (map (fun l0 => l0 ++ [LF]) ls)).
    by rewrite <-app_assoc.
  - by apply occurs_in_app_r.
Qed.

(** The history part occurs in the prompt. *)
Lemma prompt_text_history title body body_length lgtm_count comments_count tags history :
  occurs_in history
    (prompt_text title body body_length lgtm_count comments_count tags history).
Proof.
  unfold prompt_text.
  apply occurs_in_app_r, occurs_in_app_r, occurs_in_app_l, occurs_in_unlines.
  do 12 apply list_elem_of_further. apply list_elem_of_here.
Qed.

Lemma api_article_fields id title body likes_count comments_count tags :
  let article := api_article id title body likes_count comments_count tags in
  Py.get article (u8 "tags") (JArr [])
  = Ok (JArr (map (fun name => JObj [(u8 "name", JStr name)]) tags)) ∧
  Py.get article (u8 "likes_count") (JInt 0) = Ok (JInt likes_count) ∧
  Py.get article (u8 "comments_count") (JInt 0) = Ok (JInt comments_count) ∧
  Py.get article (u8 "body") (JStr []) = Ok (JStr body) ∧
  Py.get article (u8 "title") (JStr []) = Ok (JStr title).
Proof. repeat split; vm_compute; reflexivity. Qed.

Lemma tag_names tags :
  Py.comprehension (fun tag => Py.getitem tag (u8 "name"))
    (map (fun name => JObj [(u8 "name", JStr name)]) tags)
  = Ok (map JStr tags).
Proof.
  induction tags as [|name tags IH]; [done|].
  cbn [map Py.comprehension]. rewrite IH.
  assert (Py.getitem (JObj [(u8 "name", JStr name)]) (u8 "name") = Ok (JStr name)) as ->
    by (vm_compute; reflexivity).
  reflexivity.
Qed.

Lemma join_strings sep parts :
  Py.join sep (map JStr parts) = Ok (Str.join sep parts).
Proof.
  unfold Py.join.
  assert (Py.strings (map JStr parts) = Ok parts) as ->; [|done].
  induction parts as [|p parts IH]; [done|]. cbn [map Py.strings]. by rewrite IH.
Qed.

(** On an article of the documented shape the prompt is built, with the
    fields and the history part in their places. *)
Lemma build_prompt_api_article py_repr id title body likes_count comments_count tags
    past_reviews :
  build_prompt py_repr (api_article id title body likes_count comments_count tags)
    past_reviews
  = Ok (prompt_text title body (str_of_Z (Z.of_nat (length body)))
          (str_of_Z likes_count) (str_of_Z comments_count)
          (Str.join (u8 ", ") tags) (history_prompt past_reviews)).
Proof.
  destruct (api_article_fields id title body likes_count comments_count tags)
    as (Htags & Hlikes & Hcomments & Hbody & Htitle).
  unfold build_prompt. rewrite Htags, Hlikes, Hcomments, Hbody, Htitle.
  cbv beta iota delta [mbind result_bind Py.iter].
  rewrite tag_names. cbv beta iota. rewrite join_strings. reflexivity.
Qed.
End Digest.

(** The fixed texts of the history part. *)
Lemma history_texts :
  HISTORY_HEADER = u8 "【これまでの評価履歴（最新→過去）】" ++ [LF] ∧
  HISTORY_INSTRUCTION
  = u8 "今回の評価ではこれまでの履歴と比較して成長点や改善点を含めてコメントしてください。" ∧
  FIRST_EVALUATION = u8 "今回が初めての評価なので、振り返りコメントはありません。".
Proof. repeat split; vm_compute; reflexivity. Qed.

(** C4: with a non-empty history, given oldest first, the history part
    of the prompt is the header, the digest (entries most recent first,
    each with its index from 1, its score and the first 100 characters of
    its review) and the instruction to compare against the history; with
    an empty history it is the sentence that this is the first evaluation.
    The history part occurs in every prompt that is built, and a prompt is
    built for every article of the documented shape. *)
Theorem prompt_history_digest py_repr past :
  history_prompt (Some past)
  = match past with
    | [] => u8 "今回が初めての評価なので、振り返りコメントはありません。"
    | _ :: _ =>
      (u8 "【これまでの評価履歴（最新→過去）】" ++ [LF]) ++ digest past ++
      u8 "今回の評価ではこれまでの履歴と比較して成長点や改善点を含めてコメントしてください。"
    end ∧
  history_prompt None = u8 "今回が初めての評価なので、振り返りコメントはありません。" ∧
  (∀ article past_reviews prompt,
      build_prompt py_repr article past_reviews = Ok prompt →
      occurs_in (history_prompt past_reviews) prompt) ∧
  (∀ id title body likes_count comments_count tags past_reviews,
      ∃ prompt,
        build_prompt py_repr
          (api_article id title body likes_count comments_count tags) past_reviews
        = Ok prompt).
Proof.
  destruct history_texts as (Hheader & Hinstruction & Hfirst).
  split; [|split; [exact Hfirst|split]].
  - rewrite history_prompt_cases. destruct past as [|entry past]; [exact Hfirst|].
    by rewrite Hheader, Hinstruction.
  - intros article past_reviews prompt. unfold build_prompt, mbind, result_bind.
    repeat (case_match; [|discriminate]). intros [= <-].
    apply prompt_text_history.
  - intros. eexists. apply build_prompt_api_article.
Qed.

Example digest_two_entries :
  digest [ (Some 70%Z, u8 "構成が良い"); (None, u8 "説明が不足") ]
  = u8 "・1回前の評価: スコア None点, 要約: 説明が不足..." ++ [LF] ++
    u8 "・2回前の評価: スコア 70点, 要約: 構成が良い..." ++ [LF].
Proof. vm_compute. reflexivity. Qed.

(** ** The sample interpreter meets the assumptions on the digit table *)

Lemma decimal_in_lt zeros c d :
  Sample.decimal_in zeros c = Some d → (d < 10)%N.
Proof.
  induction zeros as [|z zeros IH]; [done|]. cbn [Sample.decimal_in].
  destruct ((z <=? c) && (c <? z + 10))%N eqn:Hin; [|done].
  apply andb_true_iff in Hin as [Hle%N.leb_le Hlt%N.ltb_lt]. intros [= <-]. lia.
Qed.

Lemma sample_unit_not_decimal : Sample.unicode_decimal SCORE_UNIT = None.
Proof. vm_compute. reflexivity. Qed.

Lemma sample_digits_decimal :
  Forall (fun c => Re.isdecimal Sample.unicode_decimal c = true) (u8 "1234").
Proof. repeat constructor. Qed.

Lemma sample_first_unit i k :
  digits_then_unit Sample.unicode_decimal
    (u8 "全部で" ++ u8 "1234" ++ SCORE_UNIT :: u8 "です") i k →
  length (u8 "全部で") + length (u8 "1234") ≤ i + k.
Proof.
  apply no_match_before_first_unit.
  - apply sample_unit_not_decimal.
  - apply not_elem_of_cons; split; [discriminate|].
    apply not_elem_of_cons; split; [discriminate|].
    apply not_elem_of_cons; split; [discriminate|]. apply not_elem_of_nil.
  - apply sample_digits_decimal.
Qed.

Lemma extracted_score_three_digits_witness :
  (0 ≤ 234 ≤ 999)%Z ∧
  extract_score Sample.unicode_decimal (u8 "全部で" ++ u8 "1234" ++ SCORE_UNIT :: u8 "です")
  = Ok (Some 234%Z).
Proof.
  pose proof (extracted_score_three_digits Sample.unicode_decimal
                sample_unit_not_decimal (decimal_in_lt Sample.ND_ZEROS))
    as [Hrange Hlong].
  split.
  - apply (Hrange (u8 "全部で1234点です")). vm_compute. reflexivity.
  - exact (Hlong (u8 "全部で") (u8 "1234") (u8 "です") sample_digits_decimal
             (le_n 4) sample_first_unit).
Defined.

Lemma history_after_evaluations_witness :
  ∃ history,
    get_user_history (Sample.world [] 1700000100) (snd Sample.served) Sample.user
    = (History Sample.user history, snd Sample.served) ∧
    length history
    = length (filter (evaluated_for Sample.user) (fst Sample.served)) ∧
    newest_first history.
Proof.
  apply (history_after_evaluations Sample.unicode_decimal Sample.repr
           Sample.calls [] Sample.user (fst Sample.served) (snd Sample.served)
           (Sample.world [] 1700000100)).
  - reflexivity.
  - apply surjective_pairing.
  - reflexivity.
  - reflexivity.
Defined.

Example sample_history_has_two_records :
  length (filter (evaluated_for Sample.user) (fst Sample.served)) = 2 ∧
  (get_user_history (Sample.world [] 1700000100) (snd Sample.served) Sample.user).1
  = History Sample.user
      [ {| item_article_id := SqlText Sample.article_id;
           item_title := SqlText (u8 "Pythonで始めるAPI入門");
           item_score := Some 70%Z;
           item_created_at := 1700000060 |};
        {| item_article_id := SqlText Sample.article_id;
           item_title := SqlText (u8 "Pythonで始めるAPI入門");
           item_score := Some 85%Z;
           item_created_at := 1700000000 |} ].
Proof. split; vm_compute; reflexivity. Qed.

(** * Further properties of the code *)

(** ** Further properties of [evaluate] *)

(** Symbolic execution towards a successful end: branches that ended
    with an error payload are closed. *)
Ltac run_success H :=
  cbv beta iota zeta delta [committed pending negb result_bind] in H;
  rewrite ?app_nil_r, ?app_nil_l in H;
  try discriminate H.

Lemma evaluate_success_no_fault unicode_decimal py_repr w db article_id user
    u score review db' op :
  evaluate unicode_decimal py_repr w db article_id user
  = (Evaluated u score review, db') →
  db_fault w op = false.
Proof.
  intros Hev.
  unfold evaluate, evaluate_try, mbind, M_bind, mret, M_ret, lift,
    db_connect, select_score_review, insert_evaluation, commit, close,
    connect, visible in Hev.
  destruct (db_fault w DbConnect) eqn:Hconnect; run_success Hev.
  destruct (db_fault w DbSelect) eqn:Hselect; run_success Hev.
  destruct (get_qiita_article w article_id) as [article|]; run_success Hev.
  destruct (Py.truthy article); run_success Hev.
  destruct (evaluate_article_with_openai _ _ _ _) as [evaluation|]; run_success Hev.
  destruct (extract_score _ _) as [sc|]; run_success Hev.
  destruct (Py.get article (u8 "id") JNull) as [id_value|]; run_success Hev.
  destruct (Py.get article (u8 "title") JNull) as [title_value|]; run_success Hev.
  destruct (Sql.bind id_value) as [id|]; run_success Hev.
  destruct (Sql.bind title_value) as [title|]; run_success Hev.
  destruct (Sql.bind_score sc) as [sc'|]; run_success Hev.
  destruct (Sql.bind_text evaluation) as [rv|]; run_success Hev.
  destruct (db_fault w DbInsert) eqn:Hinsert; run_success Hev.
  destruct (INT64_MAX <=? Sql.max_id db)%Z; run_success Hev.
  destruct (db_fault w DbCommit) eqn:Hcommit; run_success Hev.
  by destruct op.
Qed.

Lemma get_qiita_article_Ok_truthy w article_id article :
  get_qiita_article w article_id = Ok article →
  Py.truthy article = true →
  qiita_api w article_id = HttpResponse 200 (Some article).
Proof.
  unfold get_qiita_article.
  destruct (qiita_api w article_id) as [|status_code body]; [done|].
  destruct (Z.eqb_spec status_code 200) as [->|Hne]; cbn [negb].
  - destruct body as [v|]; [|done]. by intros [= ->].
  - by intros [= <-].
Qed.

(** X1: what a successful evaluation needed: a 200 answer with a non-empty
    JSON object, an answer text from the chat model, and no database
    fault at any step. *)
Theorem evaluate_success_requirements unicode_decimal py_repr w db article_id user
    u score review db' :
  evaluate unicode_decimal py_repr w db article_id user
  = (Evaluated u score review, db') →
  u = user ∧
  (∃ field fields,
     qiita_api w article_id = HttpResponse 200 (Some (JObj (field :: fields)))) ∧
  (∃ prompt raw, chat_completion w prompt = LlmMessage (Some raw)) ∧
  (∀ op, db_fault w op = false).
Proof.
  intros Hev.
  pose proof (fun op => evaluate_success_no_fault _ _ _ _ _ _ _ _ _ _ op Hev) as Hfault.
  apply evaluate_inv in Hev
    as [(article & evaluation & sc & idv & titlev & id & title &
         Hget & Htruthy & Heval & _ & Hid & _ & _ & _ & [= -> -> ->] & ->)|(error & [=] & _)].
  apply evaluate_article_with_openai_inv in Heval as (prompt & raw & _ & Hllm & _).
  split; [done|]. split; [|split; [by eauto|done]].
  destruct article as [| | | | | |[|field fields]]; try done.
  exists field, fields. by apply get_qiita_article_Ok_truthy.
Qed.

Lemma evaluate_success_requirements_witness :
  Sample.user = Sample.user ∧
  (∃ field fields,
     qiita_api (Sample.world (u8 "85点") 1700000000) Sample.article_id
     = HttpResponse 200 (Some (JObj (field :: fields)))) ∧
  (∃ prompt raw,
     chat_completion (Sample.world (u8 "85点") 1700000000) prompt
     = LlmMessage (Some raw)) ∧
  (∀ op, db_fault (Sample.world (u8 "85点") 1700000000) op = false).
Proof.
  eapply (evaluate_success_requirements Sample.unicode_decimal Sample.repr
            (Sample.world (u8 "85点") 1700000000) [] Sample.article_id Sample.user
            Sample.user (Some 85%Z) (u8 "85点") (snd Sample.once)).
  vm_compute. reflexivity.
Defined.

(** X2: a request whose fetch raises (a network failure) ends with the
    generic message and writes nothing. *)
Theorem evaluate_fetch_failure unicode_decimal py_repr w db article_id user :
  qiita_api w article_id = HttpFailure →
  evaluate unicode_decimal py_repr w db article_id user
  = (EvaluateError ERR_UNEXPECTED, db).
Proof.
  intros Hhttp.
  rewrite evaluate_no_article; unfold get_qiita_article; rewrite Hhttp; [|done].
  by destruct (db_fault w DbConnect || db_fault w DbSelect).
Qed.

Lemma evaluate_fetch_failure_witness :
  evaluate Sample.unicode_decimal Sample.repr
    {| qiita_api := fun _ => HttpFailure;
       chat_completion := fun _ => LlmMessage (Some (u8 "80点"));
       db_fault := fun _ => false;
       current_timestamp := 0 |} [] Sample.article_id Sample.user
  = (EvaluateError ERR_UNEXPECTED, []).
Proof. apply evaluate_fetch_failure. reflexivity. Defined.

(** X3: when the chat model fails, or answers without text, whatever the
    prompt, the request ends with an error payload and writes nothing. *)
Theorem evaluate_chat_failure unicode_decimal py_repr w db article_id user :
  (∀ prompt, chat_completion w prompt = LlmFailure ∨
             chat_completion w prompt = LlmMessage None) →
  ∃ error,
    evaluate unicode_decimal py_repr w db article_id user = (EvaluateError error, db).
Proof.
  intros Hllm.
  destruct (evaluate unicode_decimal py_repr w db article_id user)
    as [payload db'] eqn:Hev.
  apply evaluate_inv in Hev
    as [(article & evaluation & sc & idv & titlev & id & title &
         Hget & _ & Heval & _)|(error & -> & ->)].
  - apply evaluate_article_with_openai_inv in Heval as (prompt & raw & _ & Hraw & _).
    destruct (Hllm prompt); congruence.
  - by exists error.
Qed.

Lemma evaluate_chat_failure_witness :
  ∃ error,
    evaluate Sample.unicode_decimal Sample.repr
      {| qiita_api := fun _ => HttpResponse 200 (Some Sample.article);
         chat_completion := fun _ => LlmMessage None;
         db_fault := fun _ => false;
         current_timestamp := 0 |} [] Sample.article_id Sample.user
    = (EvaluateError error, []).
Proof. apply evaluate_chat_failure. intros prompt. by right. Defined.

(** ** The table over a sequence of requests *)

(** One request either leaves the table alone or appends the row of its
    answer. *)
Lemma evaluate_step unicode_decimal py_repr w db article_id user payload db' :
  evaluate unicode_decimal py_repr w db article_id user = (payload, db') →
  match stored_answer payload with
  | Some answer =>
    ∃ row, db' = db ++ [row] ∧ row_answer row = answer ∧ row_user row = user ∧
           row_id row = (Sql.max_id db + 1)%Z ∧
           extract_score unicode_decimal (row_review row) = Ok (row_score row) ∧
           row_created_at row = current_timestamp w ∧
           ∃ raw, row_review row = clean raw
  | None => db' = db
  end.
Proof.
  intros Hev. apply evaluate_inv in Hev
    as [(article & evaluation & sc & idv & titlev & id & title &
         _ & _ & Heval & Hex & _ & _ & _ & _ & -> & ->)|(error & -> & ->)]; [|done].
  apply evaluate_article_with_openai_inv in Heval as (prompt & raw & _ & _ & ->).
  cbn [stored_answer]. eexists. split; [done|]. cbn. by eauto 10.
Qed.

(** X4: the table is append-only: after a sequence of requests it is the
    table before followed by one row per successful answer, in order,
    each carrying the user, score and review that were returned. *)
Theorem serve_appends_answers unicode_decimal py_repr calls db payloads db' :
  serve unicode_decimal py_repr calls db = (payloads, db') →
  ∃ added, db' = db ++ added ∧ map row_answer added = omap stored_answer payloads.
Proof.
  revert db payloads db'. induction calls as [|c calls IH]; intros db payloads db'.
  - intros [= <- <-]. exists []. by rewrite app_nil_r.
  - cbn [serve].
    destruct (evaluate _ _ _ _ _ _) as [payload db1] eqn:Hev.
    destruct (serve _ _ calls db1) as [rest db2] eqn:Hserve.
    intros [= <- <-]. apply IH in Hserve as (added & -> & Hadded).
    apply evaluate_step in Hev. cbn [omap list_omap].
    destruct (stored_answer payload) as [answer|].
    + destruct Hev as (row & -> & Hrow & _). exists (row :: added).
      split; [by rewrite <-app_assoc|]. cbn [map]. by rewrite Hrow, Hadded.
    + subst db1. by exists added.
Qed.

Lemma serve_appends_answers_witness :
  ∃ added, snd Sample.served = [] ++ added ∧
           map row_answer added = omap stored_answer (fst Sample.served).
Proof.
  apply (serve_appends_answers Sample.unicode_decimal Sample.repr Sample.calls []).
  apply surjective_pairing.
Defined.

Lemma ids_from_one_max db : ids_from_one db → Sql.max_id db = Z.of_nat (length db).
Proof.
  unfold ids_from_one. induction db as [|r db IH] using rev_ind; [done|].
  rewrite map_app, length_app, Nat.add_1_r. cbn [map length].
  rewrite seq_S, map_app. cbn [map]. intros Heq.
  apply app_inj_2 in Heq as [Hdb [= Hr]]; [|done].
  rewrite max_id_snoc, Hr, (IH Hdb). lia.
Qed.

(** X5: the keys count up from 1: a table whose keys are 1, 2, ..., n in
    insertion order keeps that shape over any sequence of requests. *)
Theorem serve_ids_from_one unicode_decimal py_repr calls db payloads db' :
  ids_from_one db →
  serve unicode_decimal py_repr calls db = (payloads, db') →
  ids_from_one db'.
Proof.
  revert db payloads db'. induction calls as [|c calls IH]; intros db payloads db' Hids.
  - by intros [= <- <-].
  - cbn [serve].
    destruct (evaluate _ _ _ _ _ _) as [payload db1] eqn:Hev.
    destruct (serve _ _ calls db1) as [rest db2] eqn:Hserve.
    intros [= <- <-]. apply (IH db1 rest); [|done].
    apply evaluate_step in Hev. destruct (stored_answer payload); [|by subst].
    destruct Hev as (row & -> & _ & _ & Hid & _).
    unfold ids_from_one in *. rewrite map_app, length_app, Nat.add_1_r.
    cbn [map length]. rewrite seq_S, map_app, <-Hids. cbn [map].
    rewrite Hid, (ids_from_one_max db Hids). do 2 f_equal. lia.
Qed.

Lemma serve_ids_from_one_witness : ids_from_one (snd Sample.served).
Proof.
  apply (serve_ids_from_one Sample.unicode_decimal Sample.repr Sample.calls
           (init_db None) (fst Sample.served)).
  - reflexivity.
  - apply surjective_pairing.
Defined.

(** X6: every stored score is null or between 0 and 999, whatever the chat
    model wrote: the property is kept by every sequence of requests. *)
Theorem serve_scores_in_range unicode_decimal py_repr calls db payloads db' :
  (∀ c d, unicode_decimal c = Some d → (d < 10)%N) →
  Forall (fun r => score_in_range (row_score r)) db →
  serve unicode_decimal py_repr calls db = (payloads, db') →
  Forall (fun r => score_in_range (row_score r)) db'.
Proof.
  intros Hlt. revert db payloads db'.
  induction calls as [|c calls IH]; intros db payloads db' Hdb.
  - by intros [= <- <-].
  - cbn [serve].
    destruct (evaluate _ _ _ _ _ _) as [payload db1] eqn:Hev.
    destruct (serve _ _ calls db1) as [rest db2] eqn:Hserve.
    intros [= <- <-]. apply (IH db1 rest); [|done].
    apply evaluate_step in Hev. destruct (stored_answer payload); [|by subst].
    destruct Hev as (row & -> & _ & _ & _ & Hex & _).
    apply Forall_app. split; [done|]. apply Forall_singleton.
    destruct (row_score row) as [z|] eqn:Hz; [|done].
    by apply (extract_score_range unicode_decimal (row_review row)).
Qed.

Lemma serve_scores_in_range_witness :
  Forall (fun r => score_in_range (row_score r)) (snd Sample.served).
Proof.
  apply (serve_scores_in_range Sample.unicode_decimal Sample.repr Sample.calls []
           (fst Sample.served)).
  - apply decimal_in_lt.
  - constructor.
  - apply surjective_pairing.
Defined.

(** X7: every stored review is one line without whitespace at either end:
    the property is kept by every sequence of requests. *)
Theorem serve_reviews_one_line unicode_decimal py_repr calls db payloads db' :
  Forall (fun r => one_line_trimmed (row_review r)) db →
  serve unicode_decimal py_repr calls db = (payloads, db') →
  Forall (fun r => one_line_trimmed (row_review r)) db'.
Proof.
  revert db payloads db'.
  induction calls as [|c calls IH]; intros db payloads db' Hdb.
  - by intros [= <- <-].
  - cbn [serve].
    destruct (evaluate _ _ _ _ _ _) as [payload db1] eqn:Hev.
    destruct (serve _ _ calls db1) as [rest db2] eqn:Hserve.
    intros [= <- <-]. apply (IH db1 rest); [|done].
    apply evaluate_step in Hev. destruct (stored_answer payload); [|by subst].
    destruct Hev as (row & -> & _ & _ & _ & _ & _ & raw & Hraw).
    apply Forall_app. split; [done|]. apply Forall_singleton. rewrite Hraw.
    destruct (clean_spec raw) as (Hnl & Hhead & Hlast & _). by repeat split.
Qed.

Lemma serve_reviews_one_line_witness :
  Forall (fun r => one_line_trimmed (row_review r)) (snd Sample.served).
Proof.
  apply (serve_reviews_one_line Sample.unicode_decimal Sample.repr Sample.calls []
           (fst Sample.served)).
  - constructor.
  - apply surjective_pairing.
Defined.

(** ** Further properties of [get_user_history] *)

Lemma get_user_history_cases w db user :
  get_user_history w db user =
  (if db_fault w DbConnect || db_fault w DbSelect
   then HistoryError ERR_HISTORY
   else History user (map history_item
                        (Sql.order_by_created_at_desc (Sql.where_user user db))), db).
Proof.
  unfold get_user_history, mbind, M_bind, mret, M_ret, db_connect, select_history,
    close, connect, visible.
  destruct (db_fault w DbConnect); [run_goal; reflexivity|].
  destruct (db_fault w DbSelect); run_goal; [reflexivity|]. by rewrite app_nil_r.
Qed.

Lemma map_Permutation {A B} (f : A → B) (l1 l2 : list A) :
  l1 ≡ₚ l2 → map f l1 ≡ₚ map f l2.
Proof. induction 1; cbn [map]; econstructor; eauto. Qed.

(** X8: [get_user_history] only reads: the table is never changed. A
    database fault gives the history error message; otherwise each row of
    the user, and no other row, is listed exactly once. *)
Theorem get_user_history_reads_user_rows w db user :
  snd (get_user_history w db user) = db ∧
  (db_fault w DbConnect = true ∨ db_fault w DbSelect = true →
   fst (get_user_history w db user) = HistoryError ERR_HISTORY) ∧
  (db_fault w DbConnect = false → db_fault w DbSelect = false →
   ∃ history,
     fst (get_user_history w db user) = History user history ∧
     history ≡ₚ map history_item (filter (fun r => row_user r = user) db)).
Proof.
  rewrite get_user_history_cases. cbn [fst snd]. split; [done|]. split.
  - by intros [->| ->]; rewrite ?orb_true_r.
  - intros -> ->. eexists. split; [done|].
    apply map_Permutation, order_by_created_at_desc_Permutation.
Qed.

(** X9: a request of one user does not change what another user's history
    shows. *)
Theorem evaluate_keeps_other_history unicode_decimal py_repr w db article_id user
    payload db' w0 other :
  evaluate unicode_decimal py_repr w db article_id user = (payload, db') →
  other ≠ user →
  fst (get_user_history w0 db' other) = fst (get_user_history w0 db other).
Proof.
  intros Hev Hne. rewrite !get_user_history_cases. cbn [fst].
  apply evaluate_step in Hev. destruct (stored_answer payload); [|by subst].
  destruct Hev as (row & -> & _ & Huser & _).
  unfold Sql.where_user. rewrite filter_app, filter_cons_False, filter_nil, app_nil_r;
    [done|congruence].
Qed.

Lemma evaluate_keeps_other_history_witness :
  fst (get_user_history (Sample.world [] 0) (snd Sample.once) (u8 "hanako"))
  = fst (get_user_history (Sample.world [] 0) [] (u8 "hanako")).
Proof.
  apply (evaluate_keeps_other_history Sample.unicode_decimal Sample.repr
           (Sample.world (u8 "85点") 1700000000) [] Sample.article_id Sample.user
           (fst Sample.once) (snd Sample.once)).
  - apply surjective_pairing.
  - discriminate.
Defined.

(** ** The prompt that [evaluate] sends *)

Lemma build_prompt_history py_repr article past_reviews prompt :
  build_prompt py_repr article past_reviews = Ok prompt →
  occurs_in (history_prompt past_reviews) prompt.
Proof.
  unfold build_prompt, mbind, result_bind.
  repeat (case_match; [|discriminate]). intros [= <-].
  apply prompt_text_history.
Qed.

Lemma order_by_created_at_sorted rows :
  StronglySorted Sql.created_le (Sql.order_by_created_at rows).
Proof. apply StronglySorted_sort_by; apply _. Qed.

(** X10: a successful evaluation asked the chat model with a prompt that
    carries the history of the rows the user already had: for some
    arrangement of these rows that is sorted by creation time, oldest
    first, the prompt holds the header, the digest of their scores and
    reviews and the instruction to compare; for a user without rows it
    holds the sentence for a first evaluation, whatever other users have
    stored. *)
Theorem evaluate_prompt_has_user_history unicode_decimal py_repr w db article_id user
    u score review db' :
  evaluate unicode_decimal py_repr w db article_id user
  = (Evaluated u score review, db') →
  ∃ prompt raw rows,
    chat_completion w prompt = LlmMessage (Some raw) ∧
    review = clean raw ∧
    rows ≡ₚ filter (fun r => row_user r = user) db ∧
    StronglySorted (fun r1 r2 => (row_created_at r1 ≤ row_created_at r2)%Z) rows ∧
    occurs_in
      match rows with
      | [] => u8 "今回が初めての評価なので、振り返りコメントはありません。"
      | _ :: _ =>
        (u8 "【これまでの評価履歴（最新→過去）】" ++ [LF]) ++
        digest (map (fun r => (row_score r, row_review r)) rows) ++
        u8 "今回の評価ではこれまでの履歴と比較して成長点や改善点を含めてコメントしてください。"
      end
      prompt.
Proof.
  intros Hev. apply evaluate_inv in Hev
    as [(article & evaluation & sc & idv & titlev & id & title &
         _ & _ & Heval & _ & _ & _ & _ & _ & [= -> -> ->] & ->)|(error & [=] & _)].
  apply evaluate_article_with_openai_inv in Heval as (prompt & raw & Hprompt & Hllm & ->).
  apply build_prompt_history in Hprompt.
  exists prompt, raw, (Sql.order_by_created_at (Sql.where_user user db)).
  split; [done|]. split; [done|].
  split; [apply order_by_created_at_Permutation|].
  split; [apply order_by_created_at_sorted|].
  rewrite history_prompt_cases in Hprompt.
  destruct history_texts as (Hheader & Hinstruction & Hfirst).
  destruct (Sql.order_by_created_at (Sql.where_user user db)) as [|row rows];
    cbn [map] in Hprompt.
  - by rewrite Hfirst in Hprompt.
  - by rewrite Hheader, Hinstruction in Hprompt.
Qed.

Lemma evaluate_prompt_has_user_history_witness :
  ∃ prompt raw rows,
    chat_completion (Sample.world (u8 "85点") 1700000000) prompt = LlmMessage (Some raw) ∧
    u8 "85点" = clean raw ∧
    rows ≡ₚ filter (fun r => row_user r = Sample.user) (snd Sample.once) ∧
    StronglySorted (fun r1 r2 => (row_created_at r1 ≤ row_created_at r2)%Z) rows ∧
    occurs_in
      match rows with
      | [] => u8 "今回が初めての評価なので、振り返りコメントはありません。"
      | _ :: _ =>
        (u8 "【これまでの評価履歴（最新→過去）】" ++ [LF]) ++
        digest (map (fun r => (row_score r, row_review r)) rows) ++
        u8 "今回の評価ではこれまでの履歴と比較して成長点や改善点を含めてコメントしてください。"
      end
      prompt.
Proof.
  eapply (evaluate_prompt_has_user_history Sample.unicode_decimal Sample.repr
            (Sample.world (u8 "85点") 1700000000) (snd Sample.once)
            Sample.article_id Sample.user
            Sample.user (Some 85%Z) (u8 "85点") (snd Sample.twice)).
  vm_compute. reflexivity.
Defined.

(** ** Further properties of the normalisation *)

Lemma visible_replace_newline raw :
  visible_characters (replace [LF] [SPACE] raw) = visible_characters raw.
Proof.
  rewrite replace_newline. unfold visible_characters.
  induction raw as [|c raw IH]; [done|]. cbn [map].
  destruct (N.eqb_spec c LF) as [->|Hne].
  - by rewrite !filter_cons_False by (by intros [=]).
  - rewrite !filter_cons. by rewrite IH.
Qed.

Lemma visible_collapse s :
  visible_characters (replace [SPACE; SPACE] [SPACE] s) = visible_characters s.
Proof.
  unfold visible_characters.
  induction s as [| a | a b t IH1 IH2] using list_pair_ind;
    [done|by rewrite collapse_single|].
  destruct (decide (a = SPACE ∧ head (b :: t) = Some SPACE)) as [[-> [= ->]]|Hne].
  - rewrite collapse_pair. by rewrite !filter_cons_False by (by intros [=]).
  - rewrite collapse_other by done. rewrite !(filter_cons _ a). by rewrite IH2.
Qed.

Lemma visible_whitespace s :
  Forall (fun c => isspace c = true) s → visible_characters s = [].
Proof.
  unfold visible_characters. induction 1 as [|c s Hc _ IH]; [done|].
  rewrite filter_cons_False by congruence. done.
Qed.

Lemma visible_strip s : visible_characters (strip s) = visible_characters s.
Proof.
  destruct (strip_split s) as (pre & post & Heq & Hpre & Hpost).
  rewrite Heq at 2. unfold visible_characters. rewrite !filter_app.
  fold (visible_characters pre) (visible_characters post).
  by rewrite (visible_whitespace pre), (visible_whitespace post), app_nil_r.
Qed.

Lemma length_collapse s :
  length (replace [SPACE; SPACE] [SPACE] s) ≤ length s.
Proof.
  induction s as [| a | a b t IH1 IH2] using list_pair_ind;
    [done|by rewrite collapse_single|].
  destruct (decide (a = SPACE ∧ head (b :: t) = Some SPACE)) as [[-> [= ->]]|Hne].
  - rewrite collapse_pair. cbn [length]. lia.
  - rewrite collapse_other by done. cbn [length] in *. lia.
Qed.

Lemma length_strip s : length (strip s) ≤ length s.
Proof.
  destruct (strip_split s) as (pre & post & Heq & _ & _).
  rewrite Heq at 2. rewrite !length_app. lia.
Qed.

(** X11: [clean] only touches whitespace: the characters of the answer that
    are not whitespace all survive, in their order, and the review is
    never longer than the answer. *)
Theorem clean_only_touches_whitespace raw :
  visible_characters (clean raw) = visible_characters raw ∧
  length (clean raw) ≤ length raw.
Proof.
  unfold clean. split.
  - by rewrite visible_strip, visible_collapse, visible_replace_newline.
  - etrans; [apply length_strip|]. etrans; [apply length_collapse|].
    by rewrite replace_newline, length_map.
Qed.

(** [str.replace] leaves a text in which [old] does not occur as it is. *)
Lemma replace_absent old new s :
  contains old s = false → replace old new s = s.
Proof.
  unfold replace. induction s as [|c t IH]; [done|].
  rewrite contains_cons, orb_false_iff. intros [Hstart Hrest].
  cbn [replace_go]. rewrite Hstart. f_equal. by apply IH.
Qed.

Lemma contains_single c s : contains [c] s = false → c ∉ s.
Proof.
  induction s as [|a s IH]; [intros _; apply not_elem_of_nil|].
  rewrite contains_cons, orb_false_iff. cbn [startswith]. rewrite andb_true_r.
  intros [Hne%N.eqb_neq Hrest]. apply not_elem_of_cons. split; [done|]. by apply IH.
Qed.

Lemma elem_of_contains_single c s : c ∉ s → contains [c] s = false.
Proof.
  induction s as [|a s IH]; [done|].
  intros [Hne Hrest]%not_elem_of_cons.
  rewrite contains_cons, orb_false_iff. cbn [startswith]. rewrite andb_true_r.
  split; [by apply N.eqb_neq|by apply IH].
Qed.

Lemma lstrip_id s :
  (∀ c, head s = Some c → isspace c = false) → lstrip s = s.
Proof.
  destruct s as [|c t]; [done|]. intros Hhead. cbn [lstrip].
  by rewrite (Hhead c).
Qed.

Lemma strip_id s :
  (∀ c, head s = Some c → isspace c = false) →
  (∀ c, last s = Some c → isspace c = false) →
  strip s = s.
Proof.
  intros Hhead Hlast. unfold strip, rstrip. rewrite (lstrip_id s) by done.
  rewrite lstrip_id; [apply reverse_involutive|].
  intros c. rewrite head_reverse. apply Hlast.
Qed.

(** X12: a text that is already one line, without two spaces in a row and
    without whitespace at either end, comes out of [clean] unchanged. *)
Theorem clean_fixed_point py_text :
  one_line_trimmed py_text →
  contains [SPACE; SPACE] py_text = false →
  clean py_text = py_text.
Proof.
  intros (Hnl & Hhead & Hlast) Hpair. unfold clean.
  rewrite (replace_absent [LF]) by by apply elem_of_contains_single.
  rewrite replace_absent by done. by apply strip_id.
Qed.

Lemma clean_fixed_point_witness :
  clean (u8 "85点 理由: よい") = u8 "85点 理由: よい".
Proof.
  apply clean_fixed_point; [|reflexivity].
  split; [by apply contains_single|]. split; intros c [= <-]; reflexivity.
Defined.

(** ** Further properties of the score extraction *)

Section ScoreFacts.
Variable unicode_decimal : N → option N.

(** X13: the extraction never raises, and a score is found exactly when
    some 点 comes right after a decimal digit. *)
Theorem extract_score_found_iff py_text :
  (∃ score, extract_score unicode_decimal py_text = Ok score) ∧
  ((∃ score, extract_score unicode_decimal py_text = Ok (Some score)) ↔
   ∃ i c, py_text !! i = Some c ∧ Re.isdecimal unicode_decimal c = true ∧
          py_text !! S i = Some SCORE_UNIT).
Proof.
  split.
  { destruct (extract_score_cases unicode_decimal py_text)
      as [(i & k & _ & Hex)|[_ Hnone]]; by eexists. }
  split.
  - intros [score Hscore].
    destruct (extract_score_cases unicode_decimal py_text)
      as [(i & k & [(Hk & Hd & Hu) _] & _)|[_ Hnone]]; [|congruence].
    destruct (Hd (k - 1)) as (c & Hc & Hdec); [lia|].
    exists (i + (k - 1)), c. repeat split; try done.
    by replace (S (i + (k - 1))) with (i + k) by lia.
  - intros (i & c & Hc & Hdec & Hu).
    destruct (extract_score_cases unicode_decimal py_text)
      as [(i0 & k0 & _ & Hex)|[Hno _]]; [by eexists|].
    destruct (Hno i 1). split; [lia|]. split.
    + intros j Hj. replace j with 0 by lia. rewrite Nat.add_0_r. by exists c.
    + by rewrite Nat.add_1_r.
Qed.

(** X14: what follows the first match does not matter: a score that is found
    in a text is found in every extension of the text. *)
Theorem extract_score_ignores_rest py_text rest score :
  unicode_decimal SCORE_UNIT = None →
  extract_score unicode_decimal py_text = Ok (Some score) →
  extract_score unicode_decimal (py_text ++ rest) = Ok (Some score).
Proof.
  intros Hunit Hscore.
  destruct (extract_score_cases unicode_decimal py_text)
    as [(i & k & [Hm Hfirst] & Hex)|[_ Hnone]]; [|congruence].
  rewrite Hex in Hscore. injection Hscore as <-.
  pose proof Hm as (Hk & Hd & Hu).
  assert (i + k < length py_text) as Hlen by by apply lookup_lt_Some in Hu.
  assert (take k (drop i (py_text ++ rest)) = take k (drop i py_text)) as <-.
  { rewrite drop_app_le by lia. apply take_app_le. rewrite length_drop. lia. }
  apply extract_score_first; [done|]. split.
  - split; [done|]. split.
    + intros j Hj. rewrite lookup_app_l by lia. by apply Hd.
    + by rewrite lookup_app_l by lia.
  - intros i' k' (Hk' & Hd' & Hu').
    destruct (decide (i ≤ i')) as [|Hlt]; [done|exfalso].
    destruct (decide (i' + k' < length py_text)) as [Hin|Hout].
    + assert (i ≤ i'); [|lia]. apply (Hfirst i' k'). split; [done|]. split.
      * intros j Hj. destruct (Hd' j Hj) as (c & Hc & Hdec).
        exists c. split; [|done]. by rewrite lookup_app_l in Hc by lia.
      * by rewrite lookup_app_l in Hu' by lia.
    + destruct (Hd' (i + k - i')) as (c & Hc & Hdec); [lia|].
      replace (i' + (i + k - i')) with (i + k) in Hc by lia.
      rewrite lookup_app_l in Hc by lia.
      assert (c = SCORE_UNIT) as -> by congruence.
      apply isdecimal_Some in Hdec as [d Hdec]. congruence.
Qed.
End ScoreFacts.

Lemma extract_score_ignores_rest_witness :
  extract_score Sample.unicode_decimal (u8 "85点" ++ u8 " 文字数は500点相当") = Ok (Some 85%Z).
Proof.
  apply extract_score_ignores_rest; vm_compute; reflexivity.
Defined.

(** ** Further properties of the prompt builder *)

Section PromptFacts.
Variable py_repr : json → pystr.

(** X15: an object with none of the five fields is given the defaults: empty
    title and body, 0 characters, 0 likes, 0 comments and no tags. *)
Theorem build_prompt_defaults fields past_reviews :
  Py.lookup_field (u8 "tags") fields = None →
  Py.lookup_field (u8 "likes_count") fields = None →
  Py.lookup_field (u8 "comments_count") fields = None →
  Py.lookup_field (u8 "body") fields = None →
  Py.lookup_field (u8 "title") fields = None →
  build_prompt py_repr (JObj fields) past_reviews
  = Ok (prompt_text [] [] (u8 "0") (u8 "0") (u8 "0") [] (history_prompt past_reviews)).
Proof.
  intros Htags Hlikes Hcomments Hbody Htitle.
  unfold build_prompt, Py.get. rewrite Htags, Hlikes, Hcomments, Hbody, Htitle.
  reflexivity.
Qed.

(** X16: a field that is present but null is not replaced by the default:
    null tags cannot be iterated and a null body has no length, so the
    builder raises [TypeError]. *)
Theorem build_prompt_null_field fields past_reviews :
  Py.lookup_field (u8 "tags") fields = Some JNull ∨
  (Py.lookup_field (u8 "tags") fields = None ∧
   Py.lookup_field (u8 "body") fields = Some JNull) →
  build_prompt py_repr (JObj fields) past_reviews = Raise TypeError.
Proof.
  unfold build_prompt, Py.get. intros [Htags|[Htags Hbody]]; rewrite Htags.
  - reflexivity.
  - cbn [default]. cbv beta iota delta [mbind result_bind Py.iter Py.comprehension].
    cbv beta iota delta [Py.join Py.strings mbind result_bind Str.join].
    rewrite Hbody. by destruct (Py.lookup_field (u8 "likes_count") fields),
      (Py.lookup_field (u8 "comments_count") fields).
Qed.

(** X17: for an article of the documented shape the prompt shows the title,
    the body and the four lines of the extra data: the number of
    characters of the body, the likes, the comments, and the tag names
    joined by a comma and a space. *)
Theorem prompt_shows_article_data id title body likes_count comments_count tags
    past_reviews :
  ∃ prompt,
    build_prompt py_repr (api_article id title body likes_count comments_count tags)
      past_reviews = Ok prompt ∧
    occurs_in title prompt ∧
    occurs_in body prompt ∧
    occurs_in (u8 "- 文字数: " ++ str_of_Z (Z.of_nat (length body)) ++ u8 "文字") prompt ∧
    occurs_in (u8 "- LGTM数: " ++ str_of_Z likes_count) prompt ∧
    occurs_in (u8 "- コメント数: " ++ str_of_Z comments_count) prompt ∧
    occurs_in (u8 "- タグ: " ++ Str.join (u8 ", ") tags) prompt.
Proof.
  eexists. split; [apply build_prompt_api_article|]. unfold prompt_text.
  repeat split;
    apply occurs_in_app_r, occurs_in_app_r, occurs_in_app_l, occurs_in_unlines.
  - do 1 apply list_elem_of_further. apply list_elem_of_here.
  - do 4 apply list_elem_of_further. apply list_elem_of_here.
  - do 7 apply list_elem_of_further. apply list_elem_of_here.
  - do 8 apply list_elem_of_further. apply list_elem_of_here.
  - do 9 apply list_elem_of_further. apply list_elem_of_here.
  - do 10 apply list_elem_of_further. apply list_elem_of_here.
Qed.
End PromptFacts.

Lemma build_prompt_defaults_witness :
  build_prompt Sample.repr (JObj [(u8 "id", JStr (u8 "abc"))]) None
  = Ok (prompt_text [] [] (u8 "0") (u8 "0") (u8 "0") [] (history_prompt None)).
Proof. apply build_prompt_defaults; reflexivity. Defined.

Lemma build_prompt_null_field_witness :
  build_prompt Sample.repr (JObj [(u8 "tags", JNull)]) None = Raise TypeError.
Proof. apply build_prompt_null_field. left. reflexivity. Defined.

(** ** Which error [evaluate] reports *)

(** Symbolic execution towards an error: a branch is closed when the
    handler ended with the generic message, or with the article message
    at the only place that produces it. *)
Ltac run_error H :=
  cbv beta iota zeta delta [committed pending negb result_bind] in H;
  rewrite ?app_nil_r, ?app_nil_l in H;
  try discriminate H;
  try (injection H as <- <-; first [by right | left; by eauto]).

Lemma evaluate_error_inv unicode_decimal py_repr w db article_id user error db' :
  evaluate unicode_decimal py_repr w db article_id user = (EvaluateError error, db') →
  (error = ERR_ARTICLE ∧
   ∃ article, get_qiita_article w article_id = Ok article ∧ Py.truthy article = false) ∨
  error = ERR_UNEXPECTED.
Proof.
  intros Hev.
  unfold evaluate, evaluate_try, mbind, M_bind, mret, M_ret, lift,
    db_connect, select_score_review, insert_evaluation, commit, close,
    connect, visible in Hev.
  destruct (db_fault w DbConnect); run_error Hev.
  destruct (db_fault w DbSelect); run_error Hev.
  destruct (get_qiita_article w article_id) as [article|] eqn:Hget; run_error Hev.
  destruct (Py.truthy article) eqn:Htruthy; run_error Hev.
  destruct (evaluate_article_with_openai _ _ _ _) as [evaluation|]; run_error Hev.
  destruct (extract_score _ _) as [sc|]; run_error Hev.
  destruct (Py.get article (u8 "id") JNull) as [id_value|]; run_error Hev.
  destruct (Py.get article (u8 "title") JNull) as [title_value|]; run_error Hev.
  destruct (Sql.bind id_value) as [id|]; run_error Hev.
  destruct (Sql.bind title_value) as [title|]; run_error Hev.
  destruct (Sql.bind_score sc) as [sc'|]; run_error Hev.
  destruct (Sql.bind_text evaluation) as [rv|]; run_error Hev.
  destruct (db_fault w DbInsert); run_error Hev.
  destruct (INT64_MAX <=? Sql.max_id db)%Z; run_error Hev.
  destruct (db_fault w DbCommit); run_error Hev.
Qed.

(** X18: [evaluate] has two error messages. The article message is reported
    only when the content API answered, with a status other than 200 or
    with a body that is not truthy; every other failure is reported with
    the generic message. *)
Theorem evaluate_error_messages unicode_decimal py_repr w db article_id user error db' :
  evaluate unicode_decimal py_repr w db article_id user = (EvaluateError error, db') →
  (error = ERR_ARTICLE ∨ error = ERR_UNEXPECTED) ∧
  (error = ERR_ARTICLE →
   ∃ status_code body,
     qiita_api w article_id = HttpResponse status_code body ∧
     (status_code ≠ 200%Z ∨ ∃ v, body = Some v ∧ Py.truthy v = false)).
Proof.
  intros [(-> & article & Hget & Hfalsy)| ->]%evaluate_error_inv.
  - split; [by left|]. intros _. unfold get_qiita_article in Hget.
    destruct (qiita_api w article_id) as [|status_code body]; [done|].
    exists status_code, body. split; [done|].
    destruct (Z.eqb_spec status_code 200) as [->|Hne]; [right|by left].
    destruct body as [v|]; [|done]. injection Hget as ->. by exists article.
  - split; [by right|]. discriminate.
Qed.

Lemma evaluate_error_messages_witness :
  (ERR_ARTICLE = ERR_ARTICLE ∨ ERR_ARTICLE = ERR_UNEXPECTED) ∧
  (ERR_ARTICLE = ERR_ARTICLE →
   ∃ status_code body,
     qiita_api (Sample.world_http 404 None) Sample.article_id
     = HttpResponse status_code body ∧
     (status_code ≠ 200%Z ∨ ∃ v, body = Some v ∧ Py.truthy v = false)).
Proof.
  apply (evaluate_error_messages Sample.unicode_decimal Sample.repr
           (Sample.world_http 404 None) [] Sample.article_id Sample.user ERR_ARTICLE []).
  vm_compute. reflexivity.
Defined.

(** X19: a 200 answer whose body is truthy but not an object (a list, a
    string, a number) has no [get] method: the request ends with the
    generic message and writes nothing. *)
Theorem evaluate_non_object_body unicode_decimal py_repr w db article_id user body :
  qiita_api w article_id = HttpResponse 200 (Some body) →
  Py.truthy body = true →
  (∀ fields, body ≠ JObj fields) →
  evaluate unicode_decimal py_repr w db article_id user
  = (EvaluateError ERR_UNEXPECTED, db).
Proof.
  intros Hapi Htruthy Hobj.
  destruct (evaluate unicode_decimal py_repr w db article_id user)
    as [payload db'] eqn:Hev.
  pose proof Hev as Hinv. apply evaluate_inv in Hinv
    as [(article & evaluation & sc & idv & titlev & id & title &
         Hget & _ & _ & _ & Hid & _)|(error & -> & ->)].
  - unfold get_qiita_article in Hget. rewrite Hapi in Hget. injection Hget as <-.
    destruct body; try done. by destruct (Hobj fields).
  - apply evaluate_error_inv in Hev as [(_ & article & Hget & Hfalsy)| ->]; [|done].
    unfold get_qiita_article in Hget. rewrite Hapi in Hget. injection Hget as <-.
    congruence.
Qed.

Lemma evaluate_non_object_body_witness :
  Sample.evaluate (Sample.world_http 200 (Some (JArr [JInt 1]))) []
    Sample.article_id Sample.user
  = (EvaluateError ERR_UNEXPECTED, []).
Proof.
  apply (evaluate_non_object_body Sample.unicode_decimal Sample.repr
           (Sample.world_http 200 (Some (JArr [JInt 1]))) []
           Sample.article_id Sample.user (JArr [JInt 1])); [reflexivity..|].
  intros fields. discriminate.
Defined.

(** ** Requests one after the other *)

(** X20: a successful evaluation shows in the history: read right afterwards,
    the user's history has one record more, and among the records is one
    with the article, score and creation time of the new row. *)
Theorem evaluated_shows_in_history unicode_decimal py_repr w db article_id user
    u score review db' w0 :
  evaluate unicode_decimal py_repr w db article_id user
  = (Evaluated u score review, db') →
  db_fault w0 DbConnect = false →
  db_fault w0 DbSelect = false →
  ∃ before after item,
    fst (get_user_history w0 db user) = History user before ∧
    fst (get_user_history w0 db' user) = History user after ∧
    length after = S (length before) ∧
    item ∈ after ∧
    item_score item = score ∧
    item_created_at item = current_timestamp w.
Proof.
  intros Hev Hc Hs. rewrite !get_user_history_cases, Hc, Hs. cbn [orb fst].
  apply evaluate_step in Hev. cbn [stored_answer] in Hev.
  destruct Hev as (row & -> & [= _ Hscore _] & Huser & _ & _ & Hcreated & _).
  eexists _, _, (history_item row). split; [done|]. split; [done|].
  assert (Sql.where_user user (db ++ [row]) = Sql.where_user user db ++ [row]) as ->.
  { unfold Sql.where_user. by rewrite filter_app, filter_cons_True, filter_nil. }
  split; [|split; [|split]].
  - rewrite !length_map.
    rewrite !(Permutation_length (order_by_created_at_desc_Permutation _)), length_app.
    cbn [length]. lia.
  - apply list_elem_of_In, in_map, list_elem_of_In.
    rewrite order_by_created_at_desc_Permutation.
    apply elem_of_app. right. apply list_elem_of_here.
  - done.
  - done.
Qed.

Lemma evaluated_shows_in_history_witness :
  ∃ before after item,
    fst (get_user_history (Sample.world [] 0) [] Sample.user)
    = History Sample.user before ∧
    fst (get_user_history (Sample.world [] 0) (snd Sample.once) Sample.user)
    = History Sample.user after ∧
    length after = S (length before) ∧
    item ∈ after ∧
    item_score item = Some 85%Z ∧
    item_created_at item = current_timestamp (Sample.world (u8 "85点") 1700000000).
Proof.
  apply (evaluated_shows_in_history Sample.unicode_decimal Sample.repr
           (Sample.world (u8 "85点") 1700000000) [] Sample.article_id Sample.user
           Sample.user (Some 85%Z) (u8 "85点") (snd Sample.once) (Sample.world [] 0));
    [vm_compute; reflexivity|reflexivity..].
Defined.

Lemma digest_line_first score review :
  digest_line 1 score review
  = u8 "・1回前の評価: スコア " ++
    match score with Some z => str_of_Z z | None => u8 "None" end ++
    u8 "点, 要約: " ++ firstn 100 review ++ u8 "..." ++ [LF].
Proof.
  unfold digest_line.
  generalize (match score with Some z => str_of_Z z | None => u8 "None" end ++
              u8 "点, 要約: " ++ firstn 100 review ++ u8 "..." ++ [LF]).
  intros rest. vm_compute. reflexivity.
Qed.

(** X21: the second evaluation of a user is told about the first: when a
    user without rows is evaluated twice, the prompt of the second
    evaluation carries the header, the line "1回前" of the first
    evaluation with its score and the first 100 characters of its review,
    and the instruction to compare. *)
Theorem second_prompt_shows_first_evaluation unicode_decimal py_repr w1 w2 db
    article1 article2 user score1 review1 db1 score2 review2 db2 :
  Sql.where_user user db = [] →
  evaluate unicode_decimal py_repr w1 db article1 user
  = (Evaluated user score1 review1, db1) →
  evaluate unicode_decimal py_repr w2 db1 article2 user
  = (Evaluated user score2 review2, db2) →
  ∃ prompt raw,
    chat_completion w2 prompt = LlmMessage (Some raw) ∧
    occurs_in
      ((u8 "【これまでの評価履歴（最新→過去）】" ++ [LF]) ++
       (u8 "・1回前の評価: スコア " ++
        match score1 with Some z => str_of_Z z | None => u8 "None" end ++
        u8 "点, 要約: " ++ firstn 100 review1 ++ u8 "..." ++ [LF]) ++
       u8 "今回の評価ではこれまでの履歴と比較して成長点や改善点を含めてコメントしてください。")
      prompt.
Proof.
  intros Hempty Hev1 Hev2.
  apply evaluate_step in Hev1. cbn [stored_answer] in Hev1.
  destruct Hev1 as (row & -> & [= _ Hscore Hreview] & Huser & _).
  apply evaluate_inv in Hev2
    as [(article & evaluation & sc & idv & titlev & id & title &
         _ & _ & Heval & _)|(error & [=] & _)].
  apply evaluate_article_with_openai_inv in Heval as (prompt & raw & Hprompt & Hllm & _).
  apply build_prompt_history in Hprompt. exists prompt, raw. split; [done|].
  assert (Sql.where_user user (db ++ [row]) = [row]) as Hrows.
  { unfold Sql.where_user in *. by rewrite filter_app, Hempty, filter_cons_True. }
  rewrite Hrows in Hprompt.
  change (Sql.order_by_created_at [row]) with [row] in Hprompt.
  cbn [map] in Hprompt. rewrite Hscore, Hreview, history_prompt_cases in Hprompt.
  unfold digest in Hprompt. cbn [length seq map concat Nat.sub lookup list_lookup] in Hprompt.
  destruct history_texts as (Hheader & Hinstruction & _).
  by rewrite app_nil_r, digest_line_first, Hheader, Hinstruction in Hprompt.
Qed.

Lemma second_prompt_shows_first_evaluation_witness :
  ∃ prompt raw,
    chat_completion (Sample.world (u8 "85点") 1700000000) prompt = LlmMessage (Some raw) ∧
    occurs_in
      ((u8 "【これまでの評価履歴（最新→過去）】" ++ [LF]) ++
       (u8 "・1回前の評価: スコア " ++
        match Some 85%Z with Some z => str_of_Z z | None => u8 "None" end ++
        u8 "点, 要約: " ++ firstn 100 (u8 "85点") ++ u8 "..." ++ [LF]) ++
       u8 "今回の評価ではこれまでの履歴と比較して成長点や改善点を含めてコメントしてください。")
      prompt.
Proof.
  eapply (second_prompt_shows_first_evaluation Sample.unicode_decimal Sample.repr
            (Sample.world (u8 "85点") 1700000000) (Sample.world (u8 "85点") 1700000000)
            [] Sample.article_id Sample.article_id Sample.user
            (Some 85%Z) (u8 "85点") (snd Sample.once)
            (Some 85%Z) (u8 "85点") (snd Sample.twice));
    vm_compute; reflexivity.
Defined.

